(** * Plate & socket generator: geometry and validation engine

    A shallow embedding of the TypeScript sources

      - [src/unnamed/part_004]  (type definitions, [calculateSocketGroupDimensions],
        [isPlateLargeEnoughForSockets], [validateSocketPosition]),
      - [src/unnamed/part_001]  (plate scaling effect, [getSocketGroupPosition],
        the plate, socket-group, drag and zoom handlers, detection of plate
        changes),
      - [src/components/plate-canvas.tsx]  ([getSocketGroupPosition],
        [getSocketGroupSize] and [platesToShow] of the renderer),
      - [src/lib/utils.ts]  ([clamp]),
      - [src/unnamed/part_000]  (the toggle switch).

    A TypeScript [number] is an IEEE 754 binary64 value; it is modelled by the
    primitive type [float], whose operations are the binary64 ones (one NaN).
    Object identifiers are strings, the [plateScales] object is a finite map
    keyed by strings. *)

From Stdlib Require Import Floats ZArith Bool.
From stdpp Require Import gmap strings list fin_maps.

Set Warnings "-inexact-float".
Local Open Scope float_scope.

(** ** Data model (part_004, lines 15-56) *)

Inductive Direction : Set := horizontal | vertical.

Module Plate.
Record t : Set := mk { id : string; width : float; height : float }.
End Plate.

Module SocketGroup.
Record t : Set := mk {
  id : string;
  plateId : string;
  count : float;
  direction : Direction;
  positionX : float;
  positionY : float
}.
End SocketGroup.

Record Dimensions : Set := { width : float; height : float }.

(** The [error] field of the source is a German sentence built from one of five
    templates by interpolating numbers (rendered with [toFixed(1)]).  An error
    is kept here as the template together with the interpolated numbers, in the
    order in which the template mentions them. *)
Inductive ErrorMessage : Set :=
| TooCloseToLeftEdge (minAllowedPositionX plateWidth groupWidth : float)
| TooCloseToBottomEdge (minAllowedPositionY plateHeight groupHeight : float)
| ExceedsPlateWidth (maxAllowedPositionX plateWidth groupWidth : float)
| ExceedsPlateHeight (maxAllowedPositionY plateHeight groupHeight : float)
| GroupsTooClose (totalDistance : float).

Module ValidatedPosition.
Record t : Set := mk {
  valid : bool;
  error : option ErrorMessage;
  positionX : float;
  positionY : float
}.
End ValidatedPosition.

(** ** Constants (part_004, lines 61-65) *)

Definition SOCKET_SIZE : float := 7.
Definition SOCKET_GAP : float := 0.2.
Definition MIN_EDGE_DISTANCE : float := 3.
Definition MIN_GROUP_DISTANCE : float := 4.
Definition MIN_PLATE_SIZE_FOR_SOCKETS : float := 40.
Definition ANCHOR_OFFSET_CM : float := 3.5.

(** JavaScript's [a > b] and [a >= b] on numbers. *)
Definition gtb (a b : float) : bool := b <? a.
Definition geb (a b : float) : bool := b <=? a.

(** ** calculateSocketGroupDimensions (part_004, lines 79-92) *)

Definition calculateSocketGroupDimensions (count : float) (direction : Direction)
  : Dimensions :=
  let totalSocketSpace := count * SOCKET_SIZE in
  let gaps := (count - 1) * SOCKET_GAP in
  let totalDimension := totalSocketSpace + gaps in
  match direction with
  | horizontal => {| width := totalDimension; height := SOCKET_SIZE |}
  | vertical => {| height := totalDimension; width := SOCKET_SIZE |}
  end.

(** ** isPlateLargeEnoughForSockets (part_004, lines 101-106) *)

Definition isPlateLargeEnoughForSockets (plate : Plate.t) : bool :=
  geb (Plate.width plate) MIN_PLATE_SIZE_FOR_SOCKETS
  && geb (Plate.height plate) MIN_PLATE_SIZE_FOR_SOCKETS.

(** ** validateSocketPosition (part_004, lines 124-297) *)

(** The body of the [for] loop at lines 243-281: the distance between the
    candidate rectangle and the rectangle of [other]. *)
Definition totalDistance (positionX positionY groupWidth groupHeight : float)
  (other : SocketGroup.t) : float :=
  let d := calculateSocketGroupDimensions
             (SocketGroup.count other) (SocketGroup.direction other) in
  let otherWidth := width d in
  let otherHeight := height d in
  let r1Left := positionX - ANCHOR_OFFSET_CM in
  let r1Right := r1Left + groupWidth in
  let r1Bottom := positionY - ANCHOR_OFFSET_CM in
  let r1Top := r1Bottom + groupHeight in
  let r2Left := SocketGroup.positionX other - ANCHOR_OFFSET_CM in
  let r2Right := r2Left + otherWidth in
  let r2Bottom := SocketGroup.positionY other - ANCHOR_OFFSET_CM in
  let r2Top := r2Bottom + otherHeight in
  let hDistance :=
    if r1Right <? r2Left then r2Left - r1Right
    else if r2Right <? r1Left then r1Left - r2Right
    else 0 in
  let vDistance :=
    if gtb r1Bottom r2Top then r1Bottom - r2Top
    else if gtb r2Bottom r1Top then r2Bottom - r1Top
    else 0 in
  sqrt (hDistance * hDistance + vDistance * vDistance).

(** The [continue] guard of line 232. *)
Definition skipped (socketGroup other : SocketGroup.t) : bool :=
  String.eqb (SocketGroup.id other) (SocketGroup.id socketGroup)
  || negb (String.eqb (SocketGroup.plateId other) (SocketGroup.plateId socketGroup)).

(** The [for (const other of allSocketGroups)] loop of lines 231-294; [Some d]
    is the early [return] with the offending distance. *)
Fixpoint groupLoop (socketGroup : SocketGroup.t)
  (positionX positionY groupWidth groupHeight : float)
  (allSocketGroups : list SocketGroup.t) : option float :=
  match allSocketGroups with
  | [] => None
  | other :: rest =>
      if skipped socketGroup other
      then groupLoop socketGroup positionX positionY groupWidth groupHeight rest
      else
        let d := totalDistance positionX positionY groupWidth groupHeight other in
        if d <? MIN_GROUP_DISTANCE then Some d
        else groupLoop socketGroup positionX positionY groupWidth groupHeight rest
  end.

Definition invalid (e : ErrorMessage) (positionX positionY : float)
  : ValidatedPosition.t :=
  ValidatedPosition.mk false (Some e) positionX positionY.

Definition validateSocketPosition (socketGroup : SocketGroup.t)
  (positionX positionY : float) (plate : Plate.t)
  (allSocketGroups : list SocketGroup.t) : ValidatedPosition.t :=
  let d := calculateSocketGroupDimensions
             (SocketGroup.count socketGroup) (SocketGroup.direction socketGroup) in
  let groupWidth := width d in
  let groupHeight := height d in
  let groupLeftX := positionX - ANCHOR_OFFSET_CM in
  let groupBottomY := positionY - ANCHOR_OFFSET_CM in
  let groupRightX := groupLeftX + groupWidth in
  let groupTopY := groupBottomY + groupHeight in
  if groupLeftX <? MIN_EDGE_DISTANCE then
    let minAllowedGroupLeftX := MIN_EDGE_DISTANCE in
    let minAllowedPositionX := minAllowedGroupLeftX + ANCHOR_OFFSET_CM in
    invalid (TooCloseToLeftEdge minAllowedPositionX (Plate.width plate) groupWidth)
            positionX positionY
  else if groupBottomY <? MIN_EDGE_DISTANCE then
    let minAllowedGroupBottomY := MIN_EDGE_DISTANCE in
    let minAllowedPositionY := minAllowedGroupBottomY + ANCHOR_OFFSET_CM in
    invalid (TooCloseToBottomEdge minAllowedPositionY (Plate.height plate) groupHeight)
            positionX positionY
  else if gtb groupRightX (Plate.width plate - MIN_EDGE_DISTANCE) then
    let maxAllowedGroupLeftX := Plate.width plate - MIN_EDGE_DISTANCE - groupWidth in
    let maxAllowedPositionX := maxAllowedGroupLeftX + ANCHOR_OFFSET_CM in
    invalid (ExceedsPlateWidth maxAllowedPositionX (Plate.width plate) groupWidth)
            positionX positionY
  else if gtb groupTopY (Plate.height plate - MIN_EDGE_DISTANCE) then
    let maxAllowedGroupTopY := Plate.height plate - MIN_EDGE_DISTANCE in
    let maxAllowedGroupBottomY := maxAllowedGroupTopY - groupHeight in
    let maxAllowedPositionY := maxAllowedGroupBottomY + ANCHOR_OFFSET_CM in
    invalid (ExceedsPlateHeight maxAllowedPositionY (Plate.height plate) groupHeight)
            positionX positionY
  else
    match groupLoop socketGroup positionX positionY groupWidth groupHeight
                    allSocketGroups with
    | Some dist => invalid (GroupsTooClose dist) positionX positionY
    | None => ValidatedPosition.mk true None positionX positionY
    end.

(** ** JavaScript built-ins used by the component *)

Definition isPositiveZero (a : float) : bool := is_zero a && negb (get_sign a).
Definition isNegativeZero (a : float) : bool := is_zero a && get_sign a.

(** [Math.max(...)]: starts from [-Infinity], returns NaN as soon as an
    argument is NaN, and orders [-0] below [+0] (ECMA-262, 21.3.2.24). *)
Fixpoint Math_max_from (highest : float) (args : list float) : float :=
  match args with
  | [] => highest
  | number :: rest =>
      if is_nan number then nan
      else if isPositiveZero number && isNegativeZero highest
      then Math_max_from number rest
      else if gtb number highest then Math_max_from number rest
      else Math_max_from highest rest
  end.

Definition Math_max (args : list float) : float := Math_max_from neg_infinity args.

(** [Math.min(...)]: the mirror image, starting from [+Infinity] (21.3.2.25). *)
Fixpoint Math_min_from (lowest : float) (args : list float) : float :=
  match args with
  | [] => lowest
  | number :: rest =>
      if is_nan number then nan
      else if isNegativeZero number && isPositiveZero lowest
      then Math_min_from number rest
      else if number <? lowest then Math_min_from number rest
      else Math_min_from lowest rest
  end.

Definition Math_min (args : list float) : float := Math_min_from infinity args.

(** [v || 0] for an optional number: [undefined], [0], [-0] and NaN are falsy. *)
Definition orZero (v : option float) : float :=
  match v with
  | Some a => if is_nan a || is_zero a then 0 else a
  | None => 0
  end.

(** [s || fallback] for an optional string: [undefined] and the empty string are falsy. *)
Definition orString (v : option string) (fallback : string) : string :=
  match v with
  | Some a => if String.eqb a EmptyString then fallback else a
  | None => fallback
  end.

(** [array.length] as a number. *)
Definition lengthNumber {A : Type} (l : list A) : float :=
  of_uint63 (Uint63.of_Z (Z.of_nat (length l))).

(** [array.find(pred)] *)
Definition find {A : Type} (pred : A -> bool) (l : list A) : option A :=
  List.find pred l.

(** ** Component state (part_001, lines 62-103) *)

Record Point : Set := { x : float; y : float }.

Module DragState.
Record t : Set := mk {
  isDragging : bool;
  socketGroupId : option string;
  offset : Point;
  livePosition : option Point;
  liveDistanceX : option float;
  liveDistanceY : option float
}.
End DragState.

Module DOMRect.
Record t : Set := mk { left : float; top : float; width : float; height : float }.
End DOMRect.

Record MouseEvent : Set := { clientX : float; clientY : float }.

Record State : Type := mkState {
  plates : list Plate.t;
  socketGroups : list SocketGroup.t;
  selectedSocketGroup : option SocketGroup.t;
  selectedPlate : string;
  errorMessage : string;
  dragState : option DragState.t;
  canvasDimensions : Dimensions;
  plateScales : gmap string float;
  lastDragErrorToastRef : string;
  centeringOffset : float;
  shouldCenterPlates : bool;
  (** descriptions passed to [toast.error], most recent first *)
  toasts : list string
}.

Definition setSocketGroups (f : list SocketGroup.t -> list SocketGroup.t) (s : State) : State :=
  mkState (plates s) (f (socketGroups s)) (selectedSocketGroup s) (selectedPlate s)
    (errorMessage s) (dragState s) (canvasDimensions s) (plateScales s)
    (lastDragErrorToastRef s) (centeringOffset s) (shouldCenterPlates s) (toasts s).

Definition setErrorMessage (m : string) (s : State) : State :=
  mkState (plates s) (socketGroups s) (selectedSocketGroup s) (selectedPlate s)
    m (dragState s) (canvasDimensions s) (plateScales s)
    (lastDragErrorToastRef s) (centeringOffset s) (shouldCenterPlates s) (toasts s).

Definition setDragState (d : option DragState.t) (s : State) : State :=
  mkState (plates s) (socketGroups s) (selectedSocketGroup s) (selectedPlate s)
    (errorMessage s) d (canvasDimensions s) (plateScales s)
    (lastDragErrorToastRef s) (centeringOffset s) (shouldCenterPlates s) (toasts s).

Definition setPlateScales (m : gmap string float) (s : State) : State :=
  mkState (plates s) (socketGroups s) (selectedSocketGroup s) (selectedPlate s)
    (errorMessage s) (dragState s) (canvasDimensions s) m
    (lastDragErrorToastRef s) (centeringOffset s) (shouldCenterPlates s) (toasts s).

Definition setLastDragErrorToastRef (m : string) (s : State) : State :=
  mkState (plates s) (socketGroups s) (selectedSocketGroup s) (selectedPlate s)
    (errorMessage s) (dragState s) (canvasDimensions s) (plateScales s)
    m (centeringOffset s) (shouldCenterPlates s) (toasts s).

Definition setCenteringOffset (c : float) (s : State) : State :=
  mkState (plates s) (socketGroups s) (selectedSocketGroup s) (selectedPlate s)
    (errorMessage s) (dragState s) (canvasDimensions s) (plateScales s)
    (lastDragErrorToastRef s) c (shouldCenterPlates s) (toasts s).

Definition setShouldCenterPlates (b : bool) (s : State) : State :=
  mkState (plates s) (socketGroups s) (selectedSocketGroup s) (selectedPlate s)
    (errorMessage s) (dragState s) (canvasDimensions s) (plateScales s)
    (lastDragErrorToastRef s) (centeringOffset s) b (toasts s).

Definition toastError (description : string) (s : State) : State :=
  mkState (plates s) (socketGroups s) (selectedSocketGroup s) (selectedPlate s)
    (errorMessage s) (dragState s) (canvasDimensions s) (plateScales s)
    (lastDragErrorToastRef s) (centeringOffset s) (shouldCenterPlates s)
    (description :: toasts s).

(** [selectedSocketGroup !== null || selectedPlate !== ""] *)
Definition isSinglePlateMode (s : State) : bool :=
  match selectedSocketGroup s with Some _ => true | None => false end
  || negb (String.eqb (selectedPlate s) EmptyString).

(** ** Plate scaling effect (part_001, lines 718-840) *)

Definition isMobile (s : State) : bool := width (canvasDimensions s) <? 640.

Definition totalRealWidth (ps : list Plate.t) : float :=
  foldl (fun sum plate => sum + Plate.width plate) 0 ps.

Definition maxPlateHeight (ps : list Plate.t) : float :=
  Math_max (map Plate.height ps).

(** [finalScale] before the floor of line 797. *)
Definition fittedScale (s : State) : float :=
  let padding := if isMobile s then 20 else 80 in
  let maxCanvasWidth := width (canvasDimensions s) - padding * 2 in
  let maxCanvasHeight := height (canvasDimensions s) - padding * 2 in
  let allPlates :=
    let scaleByWidth := maxCanvasWidth / totalRealWidth (plates s) in
    let scaleByHeight := maxCanvasHeight / maxPlateHeight (plates s) in
    Math_min [scaleByWidth; scaleByHeight; 1] in
  if isSinglePlateMode s then
    let plateToScale :=
      find (fun p =>
              match selectedSocketGroup s with
              | Some g => String.eqb (Plate.id p) (SocketGroup.plateId g)
              | None => String.eqb (Plate.id p) (selectedPlate s)
              end) (plates s) in
    match plateToScale with
    | Some plateToScale =>
        let scaleByWidth := maxCanvasWidth / Plate.width plateToScale in
        let scaleByHeight := maxCanvasHeight / Plate.height plateToScale in
        Math_min [scaleByWidth; scaleByHeight; 2]
    | None => allPlates
    end
  else allPlates.

Definition minScale (s : State) : float := if isMobile s then 0.3 else 0.2.

(** [finalScale] after line 797. *)
Definition finalScale (s : State) : float :=
  Math_max [minScale s; fittedScale s].

(** [scales[key] = value] on the plain object [scales] of line 801, the map
    holding the own properties of the object: every key gets an own property
    except ["__proto__"], whose assignment goes to the setter inherited from
    [Object.prototype], which ignores a number and stores nothing. *)
Definition setProperty (key : string) (value : float) (scales : gmap string float)
  : gmap string float :=
  if String.eqb key "__proto__" then scales else <[key := value]> scales.

(** The [plates.forEach] of lines 801-806. *)
Definition assignScales (scale : float) (ps : list Plate.t) : gmap string float :=
  foldl (fun scales plate => setProperty (Plate.id plate) scale scales) ∅ ps.

Definition scalingEffect (s : State) : State :=
  if (width (canvasDimensions s) =? 0) || Nat.eqb (length (plates s)) 0 then s
  else
    let padding := if isMobile s then 20 else 80 in
    let finalScale := finalScale s in
    let s1 := setPlateScales (assignScales finalScale (plates s)) s in
    if negb (isSinglePlateMode s) && Nat.ltb 0 (length (plates s)) then
      let gap := if isMobile s then 16 else 24 in
      let totalContentWidth :=
        foldl (fun sum plate => sum + Plate.width plate * finalScale) 0 (plates s)
        + (lengthNumber (plates s) - 1) * gap
        + padding * 2 in
      let viewportWidth := width (canvasDimensions s) in
      if totalContentWidth <? viewportWidth then
        let calculatedCenteringOffset := (viewportWidth - totalContentWidth) / 2 in
        setShouldCenterPlates true (setCenteringOffset calculatedCenteringOffset s1)
      else
        setShouldCenterPlates false (setCenteringOffset 0 s1)
    else
      setShouldCenterPlates false (setCenteringOffset 0 s1).

(** Rendered plate size (plate-canvas.tsx, lines 247-249). *)
Definition plateWidthPx (scales : gmap string float) (plate : Plate.t) : float :=
  let scale := orZero (scales !! Plate.id plate) in
  Plate.width plate * scale.

(** ** getSocketGroupPosition *)

(** The renderer's version (plate-canvas.tsx, lines 101-125). *)
Module PlateCanvas.
Definition getSocketGroupPosition (plateScales : gmap string float)
  (socketGroup : SocketGroup.t) (plate : Plate.t) : Point :=
  let scale := orZero (plateScales !! Plate.id plate) in
  let firstSocketBottom := SocketGroup.positionY socketGroup - ANCHOR_OFFSET_CM in
  {| x := (SocketGroup.positionX socketGroup - ANCHOR_OFFSET_CM) * scale;
     y := firstSocketBottom * scale |}.
End PlateCanvas.

(** The page component's version, used by the pointer-down handlers
    (part_001, lines 1209-1231). *)
Definition getSocketGroupPosition (plateScales : gmap string float)
  (socketGroup : SocketGroup.t) (plate : Plate.t) : Point :=
  let scale := orZero (plateScales !! Plate.id plate) in
  let firstSocketLeft := SocketGroup.positionX socketGroup - ANCHOR_OFFSET_CM in
  let firstSocketBottom := SocketGroup.positionY socketGroup + ANCHOR_OFFSET_CM in
  {| x := firstSocketLeft * scale;
     y := firstSocketBottom * scale |}.

(** ** Drag handlers (part_001, lines 1249-1329 and 1441-1618) *)

(** The [for (const p of plates)] loop with its [break] (lines 1503-1515). *)
Fixpoint offsetLoop (plateScales : gmap string float) (plate : Plate.t) (gap : float)
  (ps : list Plate.t) (plateOffsetX : float) (isFirstPlate : bool) : float :=
  match ps with
  | [] => plateOffsetX
  | p :: rest =>
      if String.eqb (Plate.id p) (Plate.id plate) then plateOffsetX
      else
        let plateOffsetX := plateOffsetX + Plate.width p * orZero (plateScales !! Plate.id p) in
        let plateOffsetX := if negb isFirstPlate then plateOffsetX + gap else plateOffsetX in
        offsetLoop plateScales plate gap rest plateOffsetX false
  end.

(** [(plateOffsetX, plateOffsetY)], lines 1480-1521 (the same code at 1275-1308). *)
Definition plateOffset (s : State) (plate : Plate.t) (scale : float) (rect : DOMRect.t)
  : Point :=
  if isSinglePlateMode s then
    let padding := if DOMRect.width rect <? 640 then 20 else 40 in
    let containerContentWidth := DOMRect.width rect - padding * 2 in
    let containerContentHeight := DOMRect.height rect - padding * 2 in
    let plateScaledWidth := Plate.width plate * scale in
    let plateScaledHeight := Plate.height plate * scale in
    let centeringOffsetX := (containerContentWidth - plateScaledWidth) / 2 in
    let centeringOffsetY := (containerContentHeight - plateScaledHeight) / 2 in
    {| x := padding + centeringOffsetX; y := padding + centeringOffsetY |}
  else
    let padding := if DOMRect.width rect <? 640 then 20 else 40 in
    let gap := if DOMRect.width rect <? 640 then 16 else 24 in
    let plateOffsetX := offsetLoop (plateScales s) plate gap (plates s) 0 true in
    let plateOffsetX := plateOffsetX + padding in
    let plateOffsetX :=
      if shouldCenterPlates s then plateOffsetX + centeringOffset s else plateOffsetX in
    {| x := plateOffsetX; y := 0 |}.

(** handleSocketMouseDown (lines 1249-1329); [rect] is
    [canvasRef.current?.getBoundingClientRect()]. *)
Definition handleSocketMouseDown (s : State) (e : MouseEvent)
  (socketGroup : SocketGroup.t) (rect : option DOMRect.t) : State :=
  match find (fun p => String.eqb (Plate.id p) (SocketGroup.plateId socketGroup))
             (plates s) with
  | None => s
  | Some plate =>
      let scale := orZero (plateScales s !! SocketGroup.plateId socketGroup) in
      let pos := getSocketGroupPosition (plateScales s) socketGroup plate in
      match rect with
      | None => s
      | Some rect =>
          let off := plateOffset s plate scale rect in
          let plateHeightPx := Plate.height plate * scale in
          let posTopY := plateHeightPx - y pos in
          setDragState
            (Some (DragState.mk true (Some (SocketGroup.id socketGroup))
                     {| x := clientX e - DOMRect.left rect - x pos - x off;
                        y := clientY e - DOMRect.top rect - posTopY - y off |}
                     None None None)) s
      end
  end.

(** The candidate anchor of a pointer-move step (lines 1463-1543). *)
Definition dragCandidate (s : State) (d : DragState.t) (e : MouseEvent)
  (rect : DOMRect.t) (socketGroup : SocketGroup.t) (plate : Plate.t) : Point :=
  let mouseX := clientX e - DOMRect.left rect - x (DragState.offset d) in
  let mouseY := clientY e - DOMRect.top rect - y (DragState.offset d) in
  let scale := orZero (plateScales s !! SocketGroup.plateId socketGroup) in
  let off := plateOffset s plate scale rect in
  let mousePlateX := (mouseX - x off) / scale in
  let mousePlateY := Plate.height plate - (mouseY - y off) / scale in
  let plateX := mousePlateX + ANCHOR_OFFSET_CM in
  let plateY := mousePlateY - ANCHOR_OFFSET_CM in
  {| x := plateX; y := plateY |}.

(** The socket group and plate a pointer-move step works on (lines 1443-1459);
    [None] is one of the three early [return]s. *)
Definition dragTarget (s : State) (rect : option DOMRect.t)
  : option (DragState.t * DOMRect.t * SocketGroup.t * Plate.t) :=
  match dragState s, rect with
  | Some d, Some rect =>
      match find (fun sg => match DragState.socketGroupId d with
                            | Some i => String.eqb (SocketGroup.id sg) i
                            | None => false
                            end) (socketGroups s) with
      | None => None
      | Some socketGroup =>
          match find (fun p => String.eqb (Plate.id p) (SocketGroup.plateId socketGroup))
                     (plates s) with
          | None => None
          | Some plate => Some (d, rect, socketGroup, plate)
          end
      end
  | _, _ => None
  end.

Section Handlers.

(** The rendering of an error template into the sentence shown to the user. *)
Variable render : ErrorMessage -> string.

(** handleSocketMouseMove (lines 1441-1618); [rect] is the bounding rectangle
    of [canvasRef.current], [None] when the ref is empty. *)
Definition handleSocketMouseMove (s : State) (e : MouseEvent)
  (rect : option DOMRect.t) : State :=
  match dragTarget s rect with
  | None => s
  | Some (d, rect, socketGroup, plate) =>
      let c := dragCandidate s d e rect socketGroup plate in
      let plateX := x c in
      let plateY := y c in
      let liveDistanceX := plateX in
      let liveDistanceY := plateY in
      let s1 :=
        setDragState
          (Some (DragState.mk (DragState.isDragging d) (DragState.socketGroupId d)
                   (DragState.offset d)
                   (Some {| x := plateX; y := plateY |})
                   (Some liveDistanceX) (Some liveDistanceY))) s in
      let validation :=
        validateSocketPosition socketGroup plateX plateY plate (socketGroups s) in
      if ValidatedPosition.valid validation then
        let updatedGroup := socketGroup in
        let s2 :=
          setSocketGroups
            (fun prev =>
               map (fun sg =>
                      if String.eqb (SocketGroup.id sg) (SocketGroup.id socketGroup)
                      then SocketGroup.mk (SocketGroup.id updatedGroup)
                             (SocketGroup.plateId updatedGroup)
                             (SocketGroup.count updatedGroup)
                             (SocketGroup.direction updatedGroup)
                             plateX plateY
                      else sg) prev) s1 in
        setLastDragErrorToastRef EmptyString (setErrorMessage EmptyString s2)
      else
        let errorMsg :=
          orString (option_map render (ValidatedPosition.error validation))
                   "Cannot place socket here" in
        let s2 := setErrorMessage errorMsg s1 in
        if negb (String.eqb (lastDragErrorToastRef s2) errorMsg) then
          toastError errorMsg (setLastDragErrorToastRef errorMsg s2)
        else s2
  end.

End Handlers.

(** ** clamp (lib/utils.ts, lines 24-26) *)

Definition clamp (value min max : float) : float :=
  Math_min [Math_max [value; min]; max].

(** ** Plate handlers (part_001, lines 856-948) *)

Definition setPlates (f : list Plate.t -> list Plate.t) (s : State) : State :=
  mkState (f (plates s)) (socketGroups s) (selectedSocketGroup s) (selectedPlate s)
    (errorMessage s) (dragState s) (canvasDimensions s) (plateScales s)
    (lastDragErrorToastRef s) (centeringOffset s) (shouldCenterPlates s) (toasts s).

Definition setSelectedSocketGroup (g : option SocketGroup.t) (s : State) : State :=
  mkState (plates s) (socketGroups s) g (selectedPlate s)
    (errorMessage s) (dragState s) (canvasDimensions s) (plateScales s)
    (lastDragErrorToastRef s) (centeringOffset s) (shouldCenterPlates s) (toasts s).

Definition setSelectedPlate (p : string) (s : State) : State :=
  mkState (plates s) (socketGroups s) (selectedSocketGroup s) p
    (errorMessage s) (dragState s) (canvasDimensions s) (plateScales s)
    (lastDragErrorToastRef s) (centeringOffset s) (shouldCenterPlates s) (toasts s).

(** updatePlate (lines 856-877); an absent argument is [None]. *)
Definition updatePlate (plateId : string) (width height : option float) (s : State)
  : State :=
  let s1 :=
    setPlates
      (fun prev =>
         map (fun plate =>
                if String.eqb (Plate.id plate) plateId
                then Plate.mk (Plate.id plate)
                       (match width with
                        | Some width => clamp width 20 300
                        | None => Plate.width plate
                        end)
                       (match height with
                        | Some height => clamp height 30 128
                        | None => Plate.height plate
                        end)
                else plate) prev) s in
  match width, height with
  | None, None => s1
  | _, _ =>
      setSocketGroups
        (fun prev =>
           List.filter (fun sg => negb (String.eqb (SocketGroup.plateId sg) plateId)) prev)
        s1
  end.

(** handleDeleteSocketGroup (lines 1186-1197). *)
Definition handleDeleteSocketGroup (groupId : string) (s : State) : State :=
  let s1 :=
    setSocketGroups
      (fun prev => List.filter (fun sg => negb (String.eqb (SocketGroup.id sg) groupId)) prev)
      s in
  match selectedSocketGroup s with
  | Some g => if String.eqb (SocketGroup.id g) groupId
              then setSelectedSocketGroup None s1 else s1
  | None => s1
  end.

(** handleSocketGroupView (lines 989-999). *)
Definition handleSocketGroupView (groupId : string) (s : State) : State :=
  match find (fun sg => String.eqb (SocketGroup.id sg) groupId) (socketGroups s) with
  | Some group =>
      setSelectedPlate (SocketGroup.plateId group) (setSelectedSocketGroup (Some group) s)
  | None => s
  end.

(** handleSocketMouseUp (lines 1622-1631). *)
Definition handleSocketMouseUp (s : State) : State :=
  match dragState s with
  | Some _ => setErrorMessage EmptyString (setDragState None s)
  | None => s
  end.

(** ** Zoom handlers (part_001, lines 1692-1695) *)

Definition handleZoomIn (canvasZoom : float) : float := Math_min [canvasZoom + 0.2; 5].
Definition handleZoomOut (canvasZoom : float) : float := Math_max [canvasZoom - 0.2; 0.5].
Definition handleZoomReset (canvasZoom : float) : float := 1.

(** ** Detection of plate changes (part_001, lines 434-447) *)

(** [a !== b] on numbers. *)
Definition strictNotEqual (a b : float) : bool := negb (a =? b).

Definition platesChanged (plates lastSavedPlatesForEditMode : list Plate.t) : bool :=
  negb (Nat.eqb (length plates) (length lastSavedPlatesForEditMode))
  || existsb (fun currentPlate =>
                match find (fun p => String.eqb (Plate.id p) (Plate.id currentPlate))
                           lastSavedPlatesForEditMode with
                | None => true
                | Some savedPlate =>
                    strictNotEqual (Plate.width savedPlate) (Plate.width currentPlate)
                    || strictNotEqual (Plate.height savedPlate) (Plate.height currentPlate)
                end) plates
  || existsb (fun savedPlate =>
                match find (fun p => String.eqb (Plate.id p) (Plate.id savedPlate)) plates with
                | None => true
                | Some _ => false
                end) lastSavedPlatesForEditMode.

(** ** The form of the control panel; handlers that notify a success *)

Module Form.
Record t : Set := mk {
  socketCount : float;
  socketDirection : Direction;
  positionX : string;
  positionY : string;
  isEditingSocket : bool;
  (** descriptions passed to [toast.success], most recent first *)
  successToasts : list string
}.
End Form.

Section Confirm.

(** [parseFloat], [Number.prototype.toFixed(1)], the conversion of a number
    to a string in a template, and the rendering of an error template. *)
Variable parseFloat : string -> float.
Variable toFixed1 : float -> string.
Variable numberToString : float -> string.
Variable render : ErrorMessage -> string.

(** [array.findIndex(pred)], [-1] when no element satisfies [pred]. *)
Fixpoint findIndexFrom {A : Type} (pred : A -> bool) (l : list A) (i : float) : float :=
  match l with
  | [] => -1
  | a :: rest => if pred a then i else findIndexFrom pred rest (i + 1)
  end.

Definition findIndex {A : Type} (pred : A -> bool) (l : list A) : float :=
  findIndexFrom pred l 0.

Definition toastSuccess (description : string) (f : Form.t) : Form.t :=
  Form.mk (Form.socketCount f) (Form.socketDirection f) (Form.positionX f)
    (Form.positionY f) (Form.isEditingSocket f) (description :: Form.successToasts f).

(** addPlate (lines 889-908); [now] is [Date.now().toString()]. *)
Definition addPlate (now : string) (sf : State * Form.t) : State * Form.t :=
  let '(s, f) := sf in
  let newPlate := Plate.mk now 151.5 36.8 in
  let plateNumber := lengthNumber (plates s) + 1 in
  (setPlates (fun prev => prev ++ [newPlate]) s,
   toastSuccess
     ("Rückwand #" +:+ numberToString plateNumber +:+ ": "
      +:+ toFixed1 (Plate.width newPlate) +:+ " × "
      +:+ toFixed1 (Plate.height newPlate) +:+ " cm erfolgreich erstellt") f).

(** deletePlate (lines 921-948). *)
Definition deletePlate (plateId : string) (sf : State * Form.t) : State * Form.t :=
  let '(s, f) := sf in
  if Nat.ltb 1 (length (plates s)) then
    let deletedPlate := find (fun p => String.eqb (Plate.id p) plateId) (plates s) in
    let plateNumber :=
      findIndex (fun p : Plate.t => String.eqb (Plate.id p) plateId) (plates s) + 1 in
    let s1 :=
      setSocketGroups
        (fun prev =>
           List.filter (fun sg => negb (String.eqb (SocketGroup.plateId sg) plateId)) prev)
        (setPlates
           (fun prev => List.filter (fun p => negb (String.eqb (Plate.id p) plateId)) prev)
           s) in
    match deletedPlate with
    | Some deletedPlate =>
        (s1, toastSuccess
               ("Rückwand #" +:+ numberToString plateNumber +:+ ": "
                +:+ toFixed1 (Plate.width deletedPlate) +:+ " × "
                +:+ toFixed1 (Plate.height deletedPlate) +:+ " cm wurde entfernt") f)
    | None => (s1, f)
    end
  else
    (toastError "Mindestens eine Rückwand muss vorhanden sein" s, f).

(** handleConfirmSocketGroup (lines 1058-1182); [now] is
    [Date.now().toString()]. *)
Definition handleConfirmSocketGroup (now : string) (sf : State * Form.t)
  : State * Form.t :=
  let '(s, f) := sf in
  if String.eqb (selectedPlate s) EmptyString then
    (toastError "Bitte wählen Sie eine Rückwand aus"
       (setErrorMessage "Please select a plate" s), f)
  else
    match find (fun p => String.eqb (Plate.id p) (selectedPlate s)) (plates s) with
    | None =>
        (toastError "Rückwand muss mindestens 40 × 40 cm groß sein"
           (setErrorMessage "Plate must be at least 40x40cm" s), f)
    | Some plate =>
        if negb (isPlateLargeEnoughForSockets plate) then
          (toastError "Rückwand muss mindestens 40 × 40 cm groß sein"
             (setErrorMessage "Plate must be at least 40x40cm" s), f)
        else
          let posX := parseFloat (Form.positionX f) in
          let posY := parseFloat (Form.positionY f) in
          let socketGroup :=
            SocketGroup.mk
              (orString (option_map SocketGroup.id (selectedSocketGroup s)) now)
              (selectedPlate s) (Form.socketCount f) (Form.socketDirection f)
              posX posY in
          let validation :=
            validateSocketPosition socketGroup posX posY plate (socketGroups s) in
          if negb (ValidatedPosition.valid validation) then
            (toastError
               (orString (option_map render (ValidatedPosition.error validation))
                         "Ungültige Position")
               (setErrorMessage
                  (orString (option_map render (ValidatedPosition.error validation))
                            "Invalid position") s), f)
          else
            let s1 :=
              match selectedSocketGroup s with
              | Some selected =>
                  setSocketGroups
                    (fun prev =>
                       map (fun sg =>
                              if String.eqb (SocketGroup.id sg) (SocketGroup.id selected)
                              then socketGroup else sg) prev) s
              | None => setSocketGroups (fun prev => prev ++ [socketGroup]) s
              end in
            let s2 := setSelectedSocketGroup None (setErrorMessage EmptyString s1) in
            let currentPlate :=
              find (fun p => String.eqb (Plate.id p) (selectedPlate s)) (plates s) in
            let validPlateForReset :=
              match currentPlate with
              | Some currentPlate =>
                  if isPlateLargeEnoughForSockets currentPlate then Some currentPlate
                  else find isPlateLargeEnoughForSockets (plates s)
              | None => find isPlateLargeEnoughForSockets (plates s)
              end in
            let s3 :=
              setSelectedPlate
                (orString (option_map Plate.id validPlateForReset) EmptyString) s2 in
            let directionText :=
              match Form.socketDirection f with
              | horizontal => "Horizontal"
              | vertical => "Vertikal"
              end in
            let positionText :=
              "Position: " +:+ toFixed1 posX +:+ " cm von links, "
              +:+ toFixed1 posY +:+ " cm von unten" in
            let description :=
              "Rückwand " +:+ toFixed1 (Plate.width plate) +:+ " × "
              +:+ toFixed1 (Plate.height plate) +:+ " cm | "
              +:+ numberToString (Form.socketCount f) +:+ "x Steckdose ("
              +:+ directionText +:+ ") | " +:+ positionText in
            (s3, toastSuccess description
                   (Form.mk 1 vertical (numberToString MIN_EDGE_DISTANCE)
                      (numberToString MIN_EDGE_DISTANCE) true (Form.successToasts f)))
    end.

End Confirm.

(** ** What the canvas shows (plate-canvas.tsx, lines 129-157) *)

Module Canvas.

Definition getSocketGroupSize (plateScales : gmap string float)
  (socketGroup : SocketGroup.t) (plateId : string) : Dimensions :=
  let d := calculateSocketGroupDimensions
             (SocketGroup.count socketGroup) (SocketGroup.direction socketGroup) in
  let scale := orZero (plateScales !! plateId) in
  {| width := width d * scale; height := height d * scale |}.

Definition platesToShow (s : State) : list Plate.t :=
  match selectedSocketGroup s with
  | Some g =>
      List.filter (fun p => String.eqb (Plate.id p) (SocketGroup.plateId g)) (plates s)
  | None =>
      if negb (String.eqb (selectedPlate s) EmptyString)
      then List.filter (fun p => String.eqb (Plate.id p) (selectedPlate s)) (plates s)
      else plates s
  end.

Definition isSinglePlate (s : State) : bool := Nat.eqb (length (platesToShow s)) 1.

End Canvas.

(** ** The toggle switch (part_000, lines 11-49) *)

Module Toggle.

(** The props read by the component; an absent prop is [None]. *)
Record Props : Set := mkProps {
  pressed : option bool;
  defaultPressed : option bool;
  (** whether [onPressedChange] is given *)
  onPressedChange : bool
}.

(** The state hook and the calls made to [onPressedChange], most recent
    first. *)
Record t : Set := mk {
  internalPressed : bool;
  calls : list bool
}.

(** [React.useState(defaultPressed || false)] *)
Definition initial (props : Props) : t :=
  mk (match defaultPressed props with Some b => b || false | None => false end) [].

Definition isPressed (props : Props) (st : t) : bool :=
  match pressed props with
  | Some pressed => pressed
  | None => internalPressed st
  end.

Definition handleClick (props : Props) (st : t) : t :=
  let newPressed := negb (isPressed props st) in
  let st1 :=
    match pressed props with
    | None => mk newPressed (calls st)
    | Some _ => st
    end in
  if onPressedChange props
  then mk (internalPressed st1) (newPressed :: calls st1)
  else st1.

(** [n] clicks with the same props. *)
Definition clicks (props : Props) (n : nat) (st : t) : t :=
  Nat.iter n (handleClick props) st.

End Toggle.

(** ** Derived notions used by the statements *)

Record Rect : Set := { boxLeft : float; boxRight : float; boxBottom : float; boxTop : float }.

(** The bounding box of a group anchored at [(positionX, positionY)]: lines
    146-149 for the candidate ([groupLeftX], [groupRightX], [groupBottomY],
    [groupTopY]), lines 248-257 for the rectangles [r1] and [r2]. *)
Definition groupBox (count : float) (direction : Direction)
  (positionX positionY : float) : Rect :=
  let d := calculateSocketGroupDimensions count direction in
  let groupLeftX := positionX - ANCHOR_OFFSET_CM in
  let groupBottomY := positionY - ANCHOR_OFFSET_CM in
  {| boxLeft := groupLeftX;
     boxRight := groupLeftX + width d;
     boxBottom := groupBottomY;
     boxTop := groupBottomY + height d |}.

(** The distance computed at lines 259-281 from two rectangles. *)
Definition rectDistance (r1 r2 : Rect) : float :=
  let hDistance :=
    if boxRight r1 <? boxLeft r2 then boxLeft r2 - boxRight r1
    else if boxRight r2 <? boxLeft r1 then boxLeft r1 - boxRight r2
    else 0 in
  let vDistance :=
    if gtb (boxBottom r1) (boxTop r2) then boxBottom r1 - boxTop r2
    else if gtb (boxBottom r2) (boxTop r1) then boxBottom r2 - boxTop r1
    else 0 in
  sqrt (hDistance * hDistance + vDistance * vDistance).

Definition boxOf (g : SocketGroup.t) : Rect :=
  groupBox (SocketGroup.count g) (SocketGroup.direction g)
           (SocketGroup.positionX g) (SocketGroup.positionY g).

(** [other] takes part in the clearance check of [socketGroup]: it is another
    group (by id) of the same plate. *)
Definition sibling (socketGroup other : SocketGroup.t) : Prop :=
  SocketGroup.id other <> SocketGroup.id socketGroup
  /\ SocketGroup.plateId other = SocketGroup.plateId socketGroup.

Definition onPlateOf (socketGroup other : SocketGroup.t) : bool :=
  String.eqb (SocketGroup.plateId other) (SocketGroup.plateId socketGroup).

(** The gapped dimension as the specification words it (section 4.1). *)
Definition totalSpan (count : float) : float := count * 7 + (count - 1) * 0.2.

(** The group written back by a successful pointer-move step (lines 1580-1589). *)
Definition moveTo (socketGroup : SocketGroup.t) (plateX plateY : float)
  (sg : SocketGroup.t) : SocketGroup.t :=
  if String.eqb (SocketGroup.id sg) (SocketGroup.id socketGroup)
  then SocketGroup.mk (SocketGroup.id socketGroup) (SocketGroup.plateId socketGroup)
         (SocketGroup.count socketGroup) (SocketGroup.direction socketGroup)
         plateX plateY
  else sg.

(** ** Binary64 notions used by the statements *)

Definition isNumber (a : float) : bool := negb (is_nan a).

(** [bounded_above c r]: [r] does not exceed [c], and is at most [c] when it
    is a number. *)
Definition bounded_above (c r : float) : Prop :=
  gtb r c = false /\ (isNumber r = true -> (r <=? c) = true).

Definition bounded_below (c r : float) : Prop :=
  (r <? c) = false /\ (isNumber r = true -> (c <=? r) = true).

(** Neither NaN nor an infinity. *)
Definition isFinite (a : float) : Prop :=
  match Prim2SF a with S754_zero _ | S754_finite _ _ _ => True | _ => False end.

(** A number of the given sign bit, in the bit-level specification. *)
Definition signed (s : bool) (r : spec_float) : Prop :=
  match r with
  | S754_zero s' | S754_infinity s' | S754_finite s' _ _ => s' = s
  | S754_nan => False
  end.

(** The result of a rounding whose argument has its exponent raised by one. *)
Definition succ_exponent (r : spec_float) : spec_float :=
  match r with
  | S754_finite s m e =>
      if (e + 1 <=? emax - prec)%Z then S754_finite s m (e + 1) else S754_infinity s
  | _ => r
  end.

(** Finite numbers far enough from the subnormal range for their products with
    40 and 80 to be normal. *)
Definition normalRange (a : float) : Prop :=
  match Prim2SF a with S754_finite _ _ e => (-974 <= e)%Z | _ => True end.

(** Every socket group sits on a plate of the collection. *)
Definition wellReferenced (s : State) : Prop :=
  forall g, In g (socketGroups s) ->
    exists p, In p (plates s) /\ Plate.id p = SocketGroup.plateId g.

(** A call of one handler of the page, or one run of the scaling effect. *)
Inductive Call : Type :=
| UpdatePlate (plateId : string) (width height : option float)
| AddPlate (now : string)
| DeletePlate (plateId : string)
| ConfirmSocketGroup (now : string)
| DeleteSocketGroup (groupId : string)
| ViewSocketGroup (groupId : string)
| MouseDown (e : MouseEvent) (socketGroup : SocketGroup.t) (rect : option DOMRect.t)
| MouseMove (e : MouseEvent) (rect : option DOMRect.t)
| MouseUp
| Rescale.

Section Events.

Variable parseFloat : string -> float.
Variable toFixed1 : float -> string.
Variable numberToString : float -> string.
Variable render : ErrorMessage -> string.

(** The state that one call sets, from the state of the render the call was
    made in.  What React runs after the next render is not part of a call: the
    effect of lines 485-637, which restores socket groups from localStorage, and
    the auto-save of lines 299-333 are not embedded. *)
Definition handlerCall (sf : State * Form.t) (a : Call) : State * Form.t :=
  match a with
  | UpdatePlate plateId width height => (updatePlate plateId width height (fst sf), snd sf)
  | AddPlate now => addPlate toFixed1 numberToString now sf
  | DeletePlate plateId => deletePlate toFixed1 numberToString plateId sf
  | ConfirmSocketGroup now =>
      handleConfirmSocketGroup parseFloat toFixed1 numberToString render now sf
  | DeleteSocketGroup groupId => (handleDeleteSocketGroup groupId (fst sf), snd sf)
  | ViewSocketGroup groupId => (handleSocketGroupView groupId (fst sf), snd sf)
  | MouseDown e socketGroup rect => (handleSocketMouseDown (fst sf) e socketGroup rect, snd sf)
  | MouseMove e rect => (handleSocketMouseMove render (fst sf) e rect, snd sf)
  | MouseUp => (handleSocketMouseUp (fst sf), snd sf)
  | Rescale => (scalingEffect (fst sf), snd sf)
  end.

End Events.

(** The socket group handleConfirmSocketGroup builds from the form (lines
    1093-1100). *)
Definition confirmedGroup (parseFloat : string -> float) (now : string)
  (s : State) (f : Form.t) : SocketGroup.t :=
  SocketGroup.mk
    (orString (option_map SocketGroup.id (selectedSocketGroup s)) now)
    (selectedPlate s) (Form.socketCount f) (Form.socketDirection f)
    (parseFloat (Form.positionX f)) (parseFloat (Form.positionY f)).

(** The socket groups after a confirmation that passed every gate. *)
Definition committed (s : State) (g : SocketGroup.t) : list SocketGroup.t :=
  match selectedSocketGroup s with
  | Some selected =>
      map (fun sg => if String.eqb (SocketGroup.id sg) (SocketGroup.id selected)
                     then g else sg) (socketGroups s)
  | None => socketGroups s ++ [g]
  end.

(** The id of the socket group being dragged, if any. *)
Definition draggedId (s : State) : option string :=
  match dragState s with
  | Some d => DragState.socketGroupId d
  | None => None
  end.

(** The two rectangles are separated on neither axis (lines 259-275 leave
    [hDistance] and [vDistance] at 0). *)
Definition overlapping (r1 r2 : Rect) : bool :=
  negb (boxRight r1 <? boxLeft r2) && negb (boxRight r2 <? boxLeft r1)
  && negb (gtb (boxBottom r1) (boxTop r2)) && negb (gtb (boxBottom r2) (boxTop r1)).

(** A rectangle whose left edge is not right of its right edge, and whose
    bottom edge is not above its top edge. *)
Definition wellFormed (r : Rect) : Prop :=
  (boxLeft r <=? boxRight r) = true /\ (boxBottom r <=? boxTop r) = true.

(** The zoom buttons. *)
Inductive ZoomAction : Set := ZoomIn | ZoomOut | ZoomReset.

Definition zoomStep (canvasZoom : float) (a : ZoomAction) : float :=
  match a with
  | ZoomIn => handleZoomIn canvasZoom
  | ZoomOut => handleZoomOut canvasZoom
  | ZoomReset => handleZoomReset canvasZoom
  end.

Definition memFloat (z : float) (l : list float) : bool :=
  existsb (PrimFloat.Leibniz.eqb z) l.

Fixpoint addNew (ws seen frontier : list float) : list float * list float :=
  match ws with
  | [] => (seen, frontier)
  | w :: ws' =>
      if memFloat w seen then addNew ws' seen frontier
      else addNew ws' (w :: seen) (w :: frontier)
  end.

(** Exploration of the zoom levels the buttons lead to. *)
Fixpoint exploreZoom (fuel : nat) (seen frontier : list float) : list float :=
  match fuel, frontier with
  | S fuel', z :: rest =>
      let '(seen', frontier') :=
        addNew [zoomStep z ZoomIn; zoomStep z ZoomOut; zoomStep z ZoomReset] seen rest in
      exploreZoom fuel' seen' frontier'
  | _, _ => seen
  end.

(** The zoom levels reachable from the initial zoom 1. *)
Definition zoomLevels : list float := Eval vm_compute in exploreZoom 1000 [1] [1].

(** The plate the single-plate scale is fitted to (part_001, lines 743-747). *)
Definition plateToScale (s : State) : option Plate.t :=
  find (fun p =>
          match selectedSocketGroup s with
          | Some g => String.eqb (Plate.id p) (SocketGroup.plateId g)
          | None => String.eqb (Plate.id p) (selectedPlate s)
          end) (plates s).

(** The id of the plate shown alone: the plate of the selected socket group,
    else the selected plate. *)
Definition focusedPlateId (s : State) : string :=
  match selectedSocketGroup s with
  | Some g => SocketGroup.plateId g
  | None => selectedPlate s
  end.

(** * Properties *)

(** ** The validator *)

Lemma totalDistance_rectDistance (count : float) (direction : Direction)
  (positionX positionY : float) (other : SocketGroup.t) :
  let d := calculateSocketGroupDimensions count direction in
  totalDistance positionX positionY (width d) (height d) other
  = rectDistance (groupBox count direction positionX positionY) (boxOf other).
Proof. reflexivity. Qed.

Lemma skipped_false_sibling (socketGroup other : SocketGroup.t) :
  skipped socketGroup other = false <-> sibling socketGroup other.
Proof.
  unfold skipped, sibling.
  rewrite orb_false_iff, negb_false_iff, String.eqb_neq, String.eqb_eq.
  reflexivity.
Qed.

Lemma skipped_other_plate (socketGroup other : SocketGroup.t) :
  onPlateOf socketGroup other = false -> skipped socketGroup other = true.
Proof.
  unfold skipped, onPlateOf. intros ->. apply orb_true_r.
Qed.

(** The loop finds no offending group exactly when no sibling is closer than
    the minimum group distance. *)
Lemma groupLoop_None (socketGroup : SocketGroup.t) (positionX positionY gw gh : float)
  (allSocketGroups : list SocketGroup.t) :
  groupLoop socketGroup positionX positionY gw gh allSocketGroups = None
  <-> forall other, In other allSocketGroups -> sibling socketGroup other ->
        (totalDistance positionX positionY gw gh other <? MIN_GROUP_DISTANCE) = false.
Proof.
  induction allSocketGroups as [|o rest IH]; simpl.
  - split; [intros _ other [] | reflexivity].
  - destruct (skipped socketGroup o) eqn:Hs.
    + rewrite IH. split.
      * intros H other [<- | Hin] Hsib; [|auto].
        apply skipped_false_sibling in Hsib. congruence.
      * intros H other Hin. apply H. now right.
    + destruct (totalDistance positionX positionY gw gh o <? MIN_GROUP_DISTANCE) eqn:Hd.
      * split; [discriminate|].
        intros H. apply skipped_false_sibling in Hs.
        specialize (H o (or_introl eq_refl) Hs). congruence.
      * rewrite IH. split.
        -- intros H other [<- | Hin] Hsib; [assumption | auto].
        -- intros H other Hin. apply H. now right.
Qed.

(** An early [return] of the loop reports a distance below the minimum, of a
    sibling in the list. *)
Lemma groupLoop_Some (socketGroup : SocketGroup.t) (positionX positionY gw gh d : float)
  (allSocketGroups : list SocketGroup.t) :
  groupLoop socketGroup positionX positionY gw gh allSocketGroups = Some d ->
  exists other, In other allSocketGroups /\ sibling socketGroup other
    /\ d = totalDistance positionX positionY gw gh other
    /\ (d <? MIN_GROUP_DISTANCE) = true.
Proof.
  induction allSocketGroups as [|o rest IH]; simpl; [discriminate|].
  destruct (skipped socketGroup o) eqn:Hs.
  - intros H. destruct (IH H) as (other & Hin & Hrest). exists other. split; [right; exact Hin | exact Hrest].
  - destruct (totalDistance positionX positionY gw gh o <? MIN_GROUP_DISTANCE) eqn:Hd.
    + intros [= <-]. exists o. apply skipped_false_sibling in Hs.
      split; [left; reflexivity | split; [exact Hs | split; [reflexivity | exact Hd]]].
    + intros H. destruct (IH H) as (other & Hin & Hrest). exists other. split; [right; exact Hin | exact Hrest].
Qed.

(** Groups of other plates are invisible to the loop. *)
Lemma groupLoop_filter (socketGroup : SocketGroup.t) (positionX positionY gw gh : float)
  (allSocketGroups : list SocketGroup.t) :
  groupLoop socketGroup positionX positionY gw gh allSocketGroups
  = groupLoop socketGroup positionX positionY gw gh
      (List.filter (onPlateOf socketGroup) allSocketGroups).
Proof.
  induction allSocketGroups as [|o rest IH]; simpl; [reflexivity|].
  destruct (onPlateOf socketGroup o) eqn:Hp; simpl.
  - now rewrite IH.
  - now rewrite (skipped_other_plate _ _ Hp).
Qed.

(** The result of the validator, by the first check that fires. *)
Lemma validateSocketPosition_cases (socketGroup : SocketGroup.t)
  (positionX positionY : float) (plate : Plate.t)
  (allSocketGroups : list SocketGroup.t) :
  let d := calculateSocketGroupDimensions
             (SocketGroup.count socketGroup) (SocketGroup.direction socketGroup) in
  let b := groupBox (SocketGroup.count socketGroup) (SocketGroup.direction socketGroup)
             positionX positionY in
  validateSocketPosition socketGroup positionX positionY plate allSocketGroups =
  if boxLeft b <? MIN_EDGE_DISTANCE then
    invalid (TooCloseToLeftEdge (MIN_EDGE_DISTANCE + ANCHOR_OFFSET_CM)
               (Plate.width plate) (width d)) positionX positionY
  else if boxBottom b <? MIN_EDGE_DISTANCE then
    invalid (TooCloseToBottomEdge (MIN_EDGE_DISTANCE + ANCHOR_OFFSET_CM)
               (Plate.height plate) (height d)) positionX positionY
  else if gtb (boxRight b) (Plate.width plate - MIN_EDGE_DISTANCE) then
    invalid (ExceedsPlateWidth
               (Plate.width plate - MIN_EDGE_DISTANCE - width d + ANCHOR_OFFSET_CM)
               (Plate.width plate) (width d)) positionX positionY
  else if gtb (boxTop b) (Plate.height plate - MIN_EDGE_DISTANCE) then
    invalid (ExceedsPlateHeight
               (Plate.height plate - MIN_EDGE_DISTANCE - height d + ANCHOR_OFFSET_CM)
               (Plate.height plate) (height d)) positionX positionY
  else
    match groupLoop socketGroup positionX positionY (width d) (height d)
                    allSocketGroups with
    | Some dist => invalid (GroupsTooClose dist) positionX positionY
    | None => ValidatedPosition.mk true None positionX positionY
    end.
Proof. reflexivity. Qed.

(** The coordinates are echoed, whatever the verdict. *)
Lemma validateSocketPosition_echo (socketGroup : SocketGroup.t)
  (positionX positionY : float) (plate : Plate.t)
  (allSocketGroups : list SocketGroup.t) :
  let r := validateSocketPosition socketGroup positionX positionY plate allSocketGroups in
  ValidatedPosition.positionX r = positionX /\ ValidatedPosition.positionY r = positionY.
Proof.
  rewrite validateSocketPosition_cases. cbv zeta.
  repeat match goal with
         | |- context [if ?c then _ else _] => destruct c
         | |- context [match ?c with Some _ => _ | None => _ end] => destruct c
         end; split; reflexivity.
Qed.

(** A single socket is 7 cm wide whatever its direction. *)
Lemma single_socket_width (direction : Direction) :
  width (calculateSocketGroupDimensions 1 direction) = 7.
Proof. destruct direction; reflexivity. Qed.

(** C3.  The end-to-end scenario on a 100 x 60 plate: group A (three sockets,
    horizontal) is accepted at anchor (10, 10), its box being left 6.5, bottom
    6.5, right 27.9, top 13.5; with A committed, group B (one socket, vertical)
    at anchor (14, 10), of box left 10.5, right 17.5, bottom 6.5, top 13.5, is
    rejected with the inter-group error carrying the distance 0, which is below
    the minimum of 4. *)
Theorem scenario_A_then_B :
  let plate := Plate.mk "plate-1" 100 60 in
  let A := SocketGroup.mk "A" "plate-1" 3 horizontal 10 10 in
  let B := SocketGroup.mk "B" "plate-1" 1 vertical 14 10 in
  validateSocketPosition A 10 10 plate [] = ValidatedPosition.mk true None 10 10
  /\ validateSocketPosition A 10 10 plate [A] = ValidatedPosition.mk true None 10 10
  /\ groupBox 3 horizontal 10 10
     = {| boxLeft := 6.5; boxRight := 27.9; boxBottom := 6.5; boxTop := 13.5 |}
  /\ groupBox 1 vertical 14 10
     = {| boxLeft := 10.5; boxRight := 17.5; boxBottom := 6.5; boxTop := 13.5 |}
  /\ rectDistance (groupBox 1 vertical 14 10) (boxOf A) = 0
  /\ (0 <? MIN_GROUP_DISTANCE) = true
  /\ validateSocketPosition B 14 10 plate [A] = invalid (GroupsTooClose 0) 14 10
  /\ validateSocketPosition B 14 10 plate [A; B] = invalid (GroupsTooClose 0) 14 10.
Proof. vm_compute. repeat split; reflexivity. Qed.

(** C4.  Two sibling lists that agree on the groups of the validated group's
    plate give the same verdict, whatever groups of other plates they hold. *)
Theorem other_plates_do_not_interfere (socketGroup : SocketGroup.t)
  (positionX positionY : float) (plate : Plate.t)
  (groups1 groups2 : list SocketGroup.t) :
  List.filter (onPlateOf socketGroup) groups1 = List.filter (onPlateOf socketGroup) groups2 ->
  validateSocketPosition socketGroup positionX positionY plate groups1
  = validateSocketPosition socketGroup positionX positionY plate groups2.
Proof.
  intros Hsame. rewrite !validateSocketPosition_cases. cbv zeta.
  rewrite (groupLoop_filter _ _ _ _ _ groups1), (groupLoop_filter _ _ _ _ _ groups2).
  now rewrite Hsame.
Qed.

(** Group B of plate 2 sits at the very anchor of the candidate on plate 1; with
    or without it, and with another overlapping group of plate 3, the candidate
    is accepted. *)
Lemma other_plates_do_not_interfere_witness :
  let plate := Plate.mk "plate-1" 100 60 in
  let A := SocketGroup.mk "A" "plate-1" 1 horizontal 10 10 in
  let B := SocketGroup.mk "B" "plate-2" 3 vertical 10 10 in
  let C := SocketGroup.mk "C" "plate-3" 5 horizontal 12 11 in
  validateSocketPosition A 10 10 plate [B; A] = validateSocketPosition A 10 10 plate [A; C]
  /\ validateSocketPosition A 10 10 plate [B; A] = ValidatedPosition.mk true None 10 10.
Proof.
  intros plate A B C. split; [|reflexivity].
  apply (other_plates_do_not_interfere A 10 10 plate [B; A] [A; C]). reflexivity.
Defined.

(** C6.  For every count from 1 to 5 and both directions,
    [calculateSocketGroupDimensions] returns the gapped dimension
    [count*7 + (count-1)*0.2] along the direction of the group and exactly 7
    across it; for three horizontal sockets that is 21.4 by 7. *)
Theorem dimensions_formula (count : float) :
  In count [1; 2; 3; 4; 5] ->
  calculateSocketGroupDimensions count horizontal
  = {| width := totalSpan count; height := 7 |}
  /\ calculateSocketGroupDimensions count vertical
     = {| width := 7; height := totalSpan count |}
  /\ In (count, totalSpan count) [(1, 7); (2, 14.2); (3, 21.4); (4, 28.6); (5, 35.8)]
  /\ calculateSocketGroupDimensions 3 horizontal = {| width := 21.4; height := 7 |}.
Proof.
  intros Hcount. repeat split; try reflexivity.
  simpl in Hcount.
  destruct Hcount as [<- | [<- | [<- | [<- | [<- | []]]]]]; vm_compute; tauto.
Qed.

Lemma dimensions_formula_witness :
  calculateSocketGroupDimensions 3 horizontal = {| width := 21.4; height := 7 |}
  /\ calculateSocketGroupDimensions 3 vertical = {| width := 7; height := 21.4 |}.
Proof.
  destruct (dimensions_formula 3) as (Hh & Hv & _ & _).
  - simpl. tauto.
  - split; [exact Hh | exact Hv].
Defined.

(** ** The drag handler *)

(** C7.  A pointer-move step whose candidate fails validation leaves the
    committed socket groups as they were; the collection changes only in a step
    whose candidate [validateSocketPosition] declares valid, and then by moving
    the dragged group to that candidate. *)
Theorem drag_rejection_keeps_positions (render : ErrorMessage -> string)
  (s : State) (e : MouseEvent) (rect : option DOMRect.t) :
  let s' := handleSocketMouseMove render s e rect in
  (forall d r socketGroup plate,
      dragTarget s rect = Some (d, r, socketGroup, plate) ->
      let c := dragCandidate s d e r socketGroup plate in
      ValidatedPosition.valid
        (validateSocketPosition socketGroup (x c) (y c) plate (socketGroups s)) = false ->
      socketGroups s' = socketGroups s)
  /\ (dragTarget s rect = None -> s' = s)
  /\ (socketGroups s' <> socketGroups s ->
      exists d r socketGroup plate,
        dragTarget s rect = Some (d, r, socketGroup, plate)
        /\ let c := dragCandidate s d e r socketGroup plate in
           ValidatedPosition.valid
             (validateSocketPosition socketGroup (x c) (y c) plate (socketGroups s)) = true
           /\ socketGroups s' = map (moveTo socketGroup (x c) (y c)) (socketGroups s)).
Proof.
  cbv zeta. unfold handleSocketMouseMove.
  destruct (dragTarget s rect) as [[[[d r] socketGroup] plate]|] eqn:Htarget.
  - cbv zeta.
    destruct (ValidatedPosition.valid _) eqn:Hvalid.
    + split; [|split].
      * intros d' r' g' p' [= <- <- <- <-]. rewrite Hvalid. discriminate.
      * discriminate.
      * intros _. exists d, r, socketGroup, plate.
        split; [reflexivity|]. split; [exact Hvalid | reflexivity].
    + split; [|split].
      * intros _ _ _ _ _ _.
        match goal with |- context [if ?c then _ else _] => destruct c end; reflexivity.
      * discriminate.
      * intros Hchanged. exfalso. apply Hchanged.
        match goal with |- context [if ?c then _ else _] => destruct c end; reflexivity.
  - split; [|split].
    + discriminate.
    + reflexivity.
    + intros Hchanged. now contradiction Hchanged.
Qed.

(** A drag of group A on a 100 x 60 plate shown alone at scale 2: the pointer
    at the canvas origin maps to a candidate left of the plate, which is
    rejected, and A keeps its committed anchor (10, 10). *)
Lemma drag_rejection_keeps_positions_witness :
  let A := SocketGroup.mk "A" "p1" 1 horizontal 10 10 in
  let plate := Plate.mk "p1" 100 60 in
  let d := DragState.mk true (Some "A") {| x := 0; y := 0 |} None None None in
  let s := mkState [plate] [A] None "p1" "" (Some d) {| width := 800; height := 600 |}
             {["p1" := 2]} "" 0 false [] in
  let r := DOMRect.mk 0 0 800 600 in
  socketGroups (handleSocketMouseMove (fun _ => "error") s
                  {| clientX := 0; clientY := 0 |} (Some r)) = [A].
Proof.
  intros A plate d s r.
  apply (proj1 (drag_rejection_keeps_positions (fun _ => "error") s
                  {| clientX := 0; clientY := 0 |} (Some r)) d r A plate).
  - reflexivity.
  - vm_compute. reflexivity.
Defined.

(** ** Binary64 arithmetic

    The order of binary64 numbers and the absence of NaN in the results of the
    operations the validator performs, from the bit-level specification of the
    primitive operations. *)

Lemma is_nan_Prim2SF (a : float) : is_nan a = true <-> Prim2SF a = S754_nan.
Proof.
  unfold Prim2SF. destruct (is_nan a); [tauto|].
  split; [discriminate|].
  destruct (is_zero a); [discriminate|].
  destruct (is_infinity a); [discriminate|].
  destruct (Z.frexp a) as [r exp].
  destruct (shr_fexp _ _ _ _ _) as [shr e'].
  destruct (shr_m shr); discriminate.
Qed.

Lemma isNumber_Prim2SF (a : float) : isNumber a = true <-> Prim2SF a <> S754_nan.
Proof.
  unfold isNumber. rewrite negb_true_iff, <- is_nan_Prim2SF.
  destruct (is_nan a); split; congruence.
Qed.

Lemma SFcompare_antisym (u v : spec_float) :
  SFcompare v u = option_map CompOpp (SFcompare u v).
Proof.
  destruct u as [su|su| |su mu eu], v as [sv|sv| |sv mv ev]; simpl;
    try reflexivity; try (destruct su; reflexivity); try (destruct sv; reflexivity);
    try (destruct su, sv; reflexivity).
  destruct su, sv; try reflexivity;
    rewrite (Z.compare_antisym eu ev); destruct (eu ?= ev)%Z; simpl; try reflexivity;
    rewrite (Pos.compare_cont_antisym mu mv Eq); simpl;
    destruct (Pos.compare_cont Eq mu mv); reflexivity.
Qed.

Lemma not_ltb_leb (a b : float) :
  isNumber a = true -> isNumber b = true -> (a <? b) = false -> (b <=? a) = true.
Proof.
  rewrite !isNumber_Prim2SF, ltb_spec, leb_spec.
  unfold SFltb, SFleb. rewrite (SFcompare_antisym (Prim2SF a) (Prim2SF b)).
  destruct (Prim2SF a), (Prim2SF b); simpl; try congruence;
  match goal with |- context [match ?c with _ => _ end] => destruct c end; simpl; congruence.
Qed.

Ltac cmp_cases :=
  repeat match goal with
         | H : context [(?a ?= ?b)%Z] |- _ =>
             let C := fresh "C" in
             destruct (Z.compare_spec a b) as [C|C|C]; simpl in H
         | H : context [Pos.compare_cont Eq ?a ?b] |- _ =>
             let C := fresh "C" in
             change (Pos.compare_cont Eq a b) with (Pos.compare a b) in H;
             destruct (Pos.compare_spec a b) as [C|C|C]; simpl in H
         | |- context [(?a ?= ?b)%Z] =>
             let C := fresh "C" in
             destruct (Z.compare_spec a b) as [C|C|C]; simpl
         | |- context [Pos.compare_cont Eq ?a ?b] =>
             let C := fresh "C" in
             change (Pos.compare_cont Eq a b) with (Pos.compare a b);
             destruct (Pos.compare_spec a b) as [C|C|C]; simpl
         end.

Lemma SFleb_trans (u v w : spec_float) :
  SFleb u v = true -> SFleb v w = true -> SFleb u w = true.
Proof.
  unfold SFleb.
  destruct u as [su|su| |su mu eu], v as [sv|sv| |sv mv ev], w as [sw|sw| |sw mw ew];
    simpl; try discriminate; try reflexivity;
    try (destruct su; simpl; try discriminate; try reflexivity);
    try (destruct sv; simpl; try discriminate; try reflexivity);
    try (destruct sw; simpl; try discriminate; try reflexivity);
    intros H1 H2; cmp_cases; try discriminate; try reflexivity; try lia.
Qed.

Lemma leb_trans (a b c : float) :
  (a <=? b) = true -> (b <=? c) = true -> (a <=? c) = true.
Proof. rewrite !leb_spec. apply SFleb_trans. Qed.

Lemma ltb_leb (a b : float) : (a <? b) = true -> (a <=? b) = true.
Proof.
  rewrite ltb_spec, leb_spec. unfold SFltb, SFleb.
  destruct (SFcompare _ _) as [[]|]; congruence.
Qed.

Lemma ltb_isNumber (a b : float) :
  (a <? b) = true -> isNumber a = true /\ isNumber b = true.
Proof.
  rewrite ltb_spec, !isNumber_Prim2SF. unfold SFltb.
  destruct (Prim2SF a), (Prim2SF b); simpl; try discriminate; split; discriminate.
Qed.

Lemma leb_isNumber (a b : float) :
  (a <=? b) = true -> isNumber a = true /\ isNumber b = true.
Proof.
  rewrite leb_spec, !isNumber_Prim2SF. unfold SFleb.
  destruct (Prim2SF a), (Prim2SF b); simpl; try discriminate; split; discriminate.
Qed.

Lemma leb_not_ltb (a b : float) : (a <=? b) = true -> (b <? a) = false.
Proof.
  rewrite ltb_spec, leb_spec. unfold SFltb, SFleb.
  rewrite (SFcompare_antisym (Prim2SF a) (Prim2SF b)).
  destruct (SFcompare _ _) as [[]|]; simpl; congruence.
Qed.

Lemma iter_pos_invariant {A : Type} (P : A -> Prop) (f : A -> A) :
  (forall a, P a -> P (f a)) -> forall n a, P a -> P (SpecFloat.iter_pos f n a).
Proof.
  intros Hf. induction n as [n IH|n IH|]; simpl; intros a Ha; auto.
Qed.

Lemma shr_1_nonneg (mrs : shr_record) : (0 <= shr_m mrs)%Z -> (0 <= shr_m (shr_1 mrs))%Z.
Proof.
  destruct mrs as [m r s]. simpl.
  destruct m as [|[p|p|]|p]; simpl; lia.
Qed.

Lemma shr_fexp_nonneg (m e : Z) (l : location) :
  (0 <= m)%Z -> (0 <= shr_m (fst (shr_fexp prec emax m e l)))%Z.
Proof.
  intros Hm. unfold shr_fexp, shr.
  assert (H0 : (0 <= shr_m (shr_record_of_loc m l))%Z)
    by (destruct l as [|[]]; exact Hm).
  destruct (_ - e)%Z; simpl; try exact H0.
  now apply (iter_pos_invariant (fun r => (0 <= shr_m r)%Z) shr_1 shr_1_nonneg).
Qed.

Lemma round_nearest_even_nonneg (m : Z) (l : location) :
  (0 <= m)%Z -> (0 <= round_nearest_even m l)%Z.
Proof.
  intros Hm. destruct l as [|[]]; simpl; try lia. destruct (Z.even m); lia.
Qed.

Lemma binary_round_aux_signed (s : bool) (m e : Z) (l : location) :
  (0 <= m)%Z -> signed s (binary_round_aux prec emax s m e l).
Proof.
  intros Hm. unfold binary_round_aux.
  pose proof (shr_fexp_nonneg m e l Hm) as H1.
  destruct (shr_fexp prec emax m e l) as [mrs' e']. simpl in H1.
  pose proof (shr_fexp_nonneg _ e' loc_Exact
                (round_nearest_even_nonneg _ (loc_of_shr_record mrs') H1)) as H2.
  destruct (shr_fexp prec emax _ e' loc_Exact) as [mrs'' e'']. simpl in H2.
  destruct (shr_m mrs''); simpl; [reflexivity| |lia].
  destruct (_ <=? _)%Z; reflexivity.
Qed.

Lemma binary_round_signed (s : bool) (m : positive) (e : Z) :
  signed s (binary_round prec emax s m e).
Proof.
  unfold binary_round. destruct (shl_align _ _ _) as [mz ez].
  apply binary_round_aux_signed. lia.
Qed.

Lemma binary_normalize_number (m e : Z) (sz : bool) :
  binary_normalize prec emax m e sz <> S754_nan.
Proof.
  destruct m; simpl; [discriminate| |];
    match goal with |- binary_round _ _ ?s ?m ?e <> _ =>
      pose proof (binary_round_signed s m e) as H;
      destruct (binary_round prec emax s m e) end; simpl in H; congruence.
Qed.

Lemma signed_number (s : bool) (a : float) : signed s (Prim2SF a) -> isNumber a = true.
Proof.
  intros H. apply isNumber_Prim2SF. intros E. rewrite E in H. exact H.
Qed.

(** [b - a] is a number when [a < b]. *)
Lemma sub_isNumber (a b : float) : (a <? b) = true -> isNumber (b - a) = true.
Proof.
  rewrite ltb_spec, isNumber_Prim2SF, sub_spec. unfold SFltb, SF64sub.
  destruct (Prim2SF a) as [sa|sa| |sa ma ea], (Prim2SF b) as [sb|sb| |sb mb eb];
    simpl; try discriminate;
    try (destruct sa, sb; simpl; discriminate);
    try (destruct sa; simpl; discriminate);
    try (destruct sb; simpl; discriminate).
  intros _. apply binary_normalize_number.
Qed.

(** Adding or subtracting a finite number keeps a number a number. *)
Lemma sub_finite_isNumber (a c : float) :
  isNumber a = true -> isFinite c -> isNumber (a - c) = true.
Proof.
  rewrite !isNumber_Prim2SF, sub_spec. unfold isFinite, SF64sub.
  destruct (Prim2SF a) as [sa|sa| |sa ma ea], (Prim2SF c) as [sc|sc| |sc mc ec];
    simpl; try congruence; try tauto; intros _ _;
    try (destruct sa, sc; simpl; discriminate).
  apply binary_normalize_number.
Qed.

Lemma add_finite_isNumber (a c : float) :
  isNumber a = true -> isFinite c -> isNumber (a + c) = true.
Proof.
  rewrite !isNumber_Prim2SF, add_spec. unfold isFinite, SF64add.
  destruct (Prim2SF a) as [sa|sa| |sa ma ea], (Prim2SF c) as [sc|sc| |sc mc ec];
    simpl; try congruence; try tauto; intros _ _;
    try (destruct sa, sc; simpl; discriminate).
  apply binary_normalize_number.
Qed.

(** A square is a non-negative number. *)
Lemma square_signed (a : float) : isNumber a = true -> signed false (Prim2SF (a * a)).
Proof.
  rewrite isNumber_Prim2SF, mul_spec. unfold SF64mul.
  destruct (Prim2SF a) as [sa|sa| |sa ma ea]; simpl; try congruence; intros _;
    try (destruct sa; reflexivity).
  replace (xorb sa sa) with false by (destruct sa; reflexivity).
  apply binary_round_aux_signed. lia.
Qed.

Lemma SFadd_signed (u v : spec_float) :
  signed false u -> signed false v -> signed false (SF64add u v).
Proof.
  unfold SF64add.
  destruct u as [su|su| |su mu eu], v as [sv|sv| |sv mv ev]; simpl;
    try tauto; try (intros -> ->; reflexivity).
  intros -> ->. simpl.
  destruct (shl_align mu eu _) as [m1 e1], (shl_align mv ev _) as [m2 e2]. simpl.
  apply binary_round_signed.
Qed.

Lemma SFsqrt_signed (u : spec_float) : signed false u -> signed false (SF64sqrt u).
Proof.
  unfold SF64sqrt.
  destruct u as [su|su| |su mu eu]; simpl; try tauto; try (intros ->; reflexivity).
  intros ->. unfold SFsqrt_core_binary.
  set (s := (eu - 2 * _)%Z).
  set (m' := match s with Zpos _ => Z.shiftl (Zpos mu) s | Z0 => Zpos mu | Zneg _ => 0%Z end).
  assert (Hm' : (0 <= m')%Z).
  { subst m'. destruct s; try lia. apply Z.shiftl_nonneg. lia. }
  pose proof (Z.sqrtrem_spec m' Hm') as Hs.
  destruct (Z.sqrtrem m') as [q r].
  apply binary_round_aux_signed. lia.
Qed.

(** ** Soundness of acceptance *)

(** The distance between two rectangles is never NaN, whatever their
    coordinates are. *)
Lemma rectDistance_isNumber (r1 r2 : Rect) : isNumber (rectDistance r1 r2) = true.
Proof.
  unfold rectDistance.
  set (h := if boxRight r1 <? boxLeft r2 then _ else _).
  set (v := if gtb (boxBottom r1) (boxTop r2) then _ else _).
  assert (Hh : isNumber h = true).
  { subst h. destruct (boxRight r1 <? boxLeft r2) eqn:E1; [now apply sub_isNumber|].
    destruct (boxRight r2 <? boxLeft r1) eqn:E2; [now apply sub_isNumber | reflexivity]. }
  assert (Hv : isNumber v = true).
  { subst v. unfold gtb.
    destruct (boxTop r2 <? boxBottom r1) eqn:E1; [now apply sub_isNumber|].
    destruct (boxTop r1 <? boxBottom r2) eqn:E2; [now apply sub_isNumber | reflexivity]. }
  apply (signed_number false). rewrite sqrt_spec, add_spec.
  apply SFsqrt_signed, SFadd_signed; now apply square_signed.
Qed.

(** The dimensions of a group of one to five sockets are finite. *)
Lemma dimensions_finite (count : float) (direction : Direction) :
  In count [1; 2; 3; 4; 5] ->
  isFinite (width (calculateSocketGroupDimensions count direction))
  /\ isFinite (height (calculateSocketGroupDimensions count direction)).
Proof.
  simpl. intros [<- | [<- | [<- | [<- | [<- | []]]]]]; destruct direction;
    split; vm_compute; exact I.
Qed.

(** Soundness of acceptance for numeric inputs.  When the candidate coordinates
    and the plate dimensions are numbers and the group has one to five sockets,
    an accepted candidate has its box at least 3 cm inside the plate on the four
    sides and at least 4 cm away from every sibling, and the result echoes the
    candidate. *)
Theorem acceptance_sound (socketGroup : SocketGroup.t) (positionX positionY : float)
  (plate : Plate.t) (allSocketGroups : list SocketGroup.t) :
  isNumber positionX = true -> isNumber positionY = true ->
  isNumber (Plate.width plate) = true -> isNumber (Plate.height plate) = true ->
  In (SocketGroup.count socketGroup) [1; 2; 3; 4; 5] ->
  let r := validateSocketPosition socketGroup positionX positionY plate allSocketGroups in
  let b := groupBox (SocketGroup.count socketGroup) (SocketGroup.direction socketGroup)
             positionX positionY in
  ValidatedPosition.valid r = true ->
  geb (boxLeft b) 3 = true
  /\ geb (boxBottom b) 3 = true
  /\ (boxRight b <=? Plate.width plate - 3) = true
  /\ (boxTop b <=? Plate.height plate - 3) = true
  /\ (forall other, In other allSocketGroups -> sibling socketGroup other ->
        geb (rectDistance b (boxOf other)) 4 = true)
  /\ ValidatedPosition.positionX r = positionX
  /\ ValidatedPosition.positionY r = positionY.
Proof.
  intros Hx Hy Hw Hh Hcount r b.
  destruct (dimensions_finite _ (SocketGroup.direction socketGroup) Hcount) as [Fw Fh].
  assert (Fa : isFinite ANCHOR_OFFSET_CM) by exact I.
  assert (Fe : isFinite MIN_EDGE_DISTANCE) by exact I.
  assert (Nl : isNumber (boxLeft b) = true) by now apply sub_finite_isNumber.
  assert (Nb : isNumber (boxBottom b) = true) by now apply sub_finite_isNumber.
  assert (Nr : isNumber (boxRight b) = true) by now apply add_finite_isNumber.
  assert (Nt : isNumber (boxTop b) = true) by now apply add_finite_isNumber.
  assert (Nw : isNumber (Plate.width plate - MIN_EDGE_DISTANCE) = true)
    by now apply sub_finite_isNumber.
  assert (Nh : isNumber (Plate.height plate - MIN_EDGE_DISTANCE) = true)
    by now apply sub_finite_isNumber.
  subst r. rewrite validateSocketPosition_cases. cbv zeta. fold b.
  destruct (boxLeft b <? MIN_EDGE_DISTANCE) eqn:El; [discriminate|].
  destruct (boxBottom b <? MIN_EDGE_DISTANCE) eqn:Eb; [discriminate|].
  destruct (gtb (boxRight b) _) eqn:Er; [discriminate|].
  destruct (gtb (boxTop b) _) eqn:Et; [discriminate|].
  destruct (groupLoop _ _ _ _ _ _) as [dist|] eqn:Eg; [discriminate|].
  intros _. unfold geb, gtb in *.
  repeat split; try (apply not_ltb_leb; assumption || reflexivity).
  intros other Hin Hsib.
  rewrite groupLoop_None in Eg. specialize (Eg other Hin Hsib).
  rewrite totalDistance_rectDistance in Eg. fold b in Eg.
  apply not_ltb_leb; [apply rectDistance_isNumber | reflexivity | exact Eg].
Qed.

(** Group A of the scenario, accepted at (10, 10) next to a sibling 20 cm to
    its right. *)
Lemma acceptance_sound_witness :
  let plate := Plate.mk "plate-1" 100 60 in
  let A := SocketGroup.mk "A" "plate-1" 3 horizontal 10 10 in
  let B := SocketGroup.mk "B" "plate-1" 1 vertical 50 10 in
  geb (boxLeft (groupBox 3 horizontal 10 10)) 3 = true
  /\ (boxRight (groupBox 3 horizontal 10 10) <=? 100 - 3) = true
  /\ geb (rectDistance (groupBox 3 horizontal 10 10) (boxOf B)) 4 = true.
Proof.
  intros plate A B.
  destruct (acceptance_sound A 10 10 plate [A; B]) as (Hl & _ & Hr & _ & Hd & _);
    try reflexivity.
  - simpl. tauto.
  - split; [exact Hl|]. split; [exact Hr|].
    apply (Hd B); [simpl; tauto | split; [discriminate | reflexivity]].
Defined.

(** C10.  The validator has no guard against NaN: every check is a comparison,
    false on NaN, so that a candidate whose coordinates are NaN passes the four
    edge checks and is accepted, although its box does not satisfy
    [boxLeft >= 3]. *)
Lemma acceptance_of_NaN :
  let plate := Plate.mk "plate-1" 100 60 in
  let A := SocketGroup.mk "A" "plate-1" 1 vertical 3 3 in
  ~ (forall positionX positionY,
       ValidatedPosition.valid (validateSocketPosition A positionX positionY plate []) = true ->
       geb (boxLeft (groupBox 1 vertical positionX positionY)) 3 = true)
  /\ validateSocketPosition A nan nan plate [] = ValidatedPosition.mk true None nan nan
  /\ geb (boxLeft (groupBox 1 vertical nan nan)) 3 = false.
Proof.
  intros plate A. split; [|split; reflexivity].
  intros H. specialize (H nan nan eq_refl). discriminate H.
Qed.

(** ** The inter-group boundary *)

(** With a single sibling in the list, the loop reports that sibling's distance
    exactly when it is below the minimum. *)
Lemma groupLoop_single_sibling (socketGroup other : SocketGroup.t)
  (positionX positionY gw gh : float) (allSocketGroups : list SocketGroup.t) :
  sibling socketGroup other -> In other allSocketGroups ->
  (forall o, In o allSocketGroups -> sibling socketGroup o -> o = other) ->
  let d := totalDistance positionX positionY gw gh other in
  groupLoop socketGroup positionX positionY gw gh allSocketGroups
  = if d <? MIN_GROUP_DISTANCE then Some d else None.
Proof.
  intros Hsib Hin Honly d.
  destruct (d <? MIN_GROUP_DISTANCE) eqn:Hd.
  - destruct (groupLoop _ _ _ _ _ _) as [d'|] eqn:Hloop.
    + apply groupLoop_Some in Hloop as (o & Hino & Hsibo & -> & _).
      now rewrite (Honly o Hino Hsibo).
    + rewrite groupLoop_None in Hloop. specialize (Hloop other Hin Hsib).
      fold d in Hloop. congruence.
  - apply groupLoop_None. intros o Hino Hsibo.
    now rewrite (Honly o Hino Hsibo).
Qed.

(** C2.  For two groups of the same plate, a candidate within the plate is
    rejected with the inter-group error when its box is at distance exactly 3.9
    from the other group, and accepted when the distance is exactly 4: the test
    [distance < 4] leaves the boundary on the accepting side. *)
Theorem group_distance_boundary (socketGroup other : SocketGroup.t)
  (positionX positionY : float) (plate : Plate.t)
  (allSocketGroups : list SocketGroup.t) :
  sibling socketGroup other -> In other allSocketGroups ->
  (forall o, In o allSocketGroups -> sibling socketGroup o -> o = other) ->
  let b := groupBox (SocketGroup.count socketGroup) (SocketGroup.direction socketGroup)
             positionX positionY in
  (boxLeft b <? MIN_EDGE_DISTANCE) = false ->
  (boxBottom b <? MIN_EDGE_DISTANCE) = false ->
  gtb (boxRight b) (Plate.width plate - MIN_EDGE_DISTANCE) = false ->
  gtb (boxTop b) (Plate.height plate - MIN_EDGE_DISTANCE) = false ->
  let r := validateSocketPosition socketGroup positionX positionY plate allSocketGroups in
  (rectDistance b (boxOf other) = 3.9 -> r = invalid (GroupsTooClose 3.9) positionX positionY)
  /\ (rectDistance b (boxOf other) = 4 -> r = ValidatedPosition.mk true None positionX positionY).
Proof.
  intros Hsib Hin Honly b Hl Hb Hr Ht r. subst r.
  rewrite validateSocketPosition_cases. cbv zeta. fold b.
  rewrite Hl, Hb, Hr, Ht.
  rewrite (groupLoop_single_sibling _ other) by assumption.
  cbv zeta. rewrite totalDistance_rectDistance. fold b.
  split; intros ->; reflexivity.
Qed.

(** On a 100 x 60 plate: the candidate (28.66, 12.88) lies at distance 3.9 from a
    socket anchored at (38, 23) and is rejected; the candidate (10, 10) lies at
    distance 4 from a socket anchored at (21, 10) and is accepted. *)
Lemma group_distance_boundary_witness :
  let plate := Plate.mk "plate-1" 100 60 in
  let A := SocketGroup.mk "A" "plate-1" 1 horizontal 10 10 in
  let B := SocketGroup.mk "B" "plate-1" 1 horizontal 38 23 in
  let B' := SocketGroup.mk "B" "plate-1" 1 horizontal 21 10 in
  validateSocketPosition A 28.66 12.88 plate [A; B] = invalid (GroupsTooClose 3.9) 28.66 12.88
  /\ validateSocketPosition A 10 10 plate [A; B'] = ValidatedPosition.mk true None 10 10.
Proof.
  intros plate A B B'.
  assert (Honly : forall C : SocketGroup.t,
             forall o, In o [A; C] -> sibling A o -> o = C).
  { intros C o [<- | [<- | []]] [Hid _]; [now contradiction Hid | reflexivity]. }
  assert (SB : sibling A B) by (split; [discriminate | reflexivity]).
  assert (SB' : sibling A B') by (split; [discriminate | reflexivity]).
  assert (IB : In B [A; B]) by (simpl; tauto).
  assert (IB' : In B' [A; B']) by (simpl; tauto).
  pose proof (group_distance_boundary A B 28.66 12.88 plate [A; B] SB IB (Honly B)
                eq_refl eq_refl eq_refl eq_refl) as [H39 _].
  pose proof (group_distance_boundary A B' 10 10 plate [A; B'] SB' IB' (Honly B')
                eq_refl eq_refl eq_refl eq_refl) as [_ H4].
  split; [apply H39 | apply H4]; vm_compute; reflexivity.
Defined.

(** ** The scale factor *)

Lemma ltb_nan_r (a : float) : (a <? nan) = false.
Proof.
  rewrite ltb_spec. change (Prim2SF nan) with S754_nan.
  unfold SFltb. now destruct (Prim2SF a).
Qed.

Lemma ltb_nan_l (a : float) : (nan <? a) = false.
Proof. rewrite ltb_spec. reflexivity. Qed.

Lemma leb_refl (a : float) : isNumber a = true -> (a <=? a) = true.
Proof.
  intros Ha. apply not_ltb_leb; try assumption.
  destruct (a <? a) eqn:E; [|reflexivity].
  pose proof (leb_not_ltb _ _ (ltb_leb _ _ E)). congruence.
Qed.

Lemma ltb_irrefl (a : float) : (a <? a) = false.
Proof.
  destruct (a <? a) eqn:E; [|reflexivity].
  pose proof (leb_not_ltb _ _ (ltb_leb _ _ E)). congruence.
Qed.

Lemma bounded_above_nan (c : float) : bounded_above c nan.
Proof. split; [apply ltb_nan_r | discriminate]. Qed.

Lemma bounded_above_refl (c : float) : isNumber c = true -> bounded_above c c.
Proof. intros Hc. split; [apply ltb_irrefl | intros _; now apply leb_refl]. Qed.

(** [Math.min] never exceeds its last argument. *)
Lemma Math_min_from_last (cap : float) (args : list float) (lowest : float) :
  isNumber cap = true ->
  bounded_above cap (Math_min_from lowest (args ++ [cap])).
Proof.
  intros Hcap. revert lowest.
  induction args as [|number rest IH]; intros lowest; simpl.
  - unfold isNumber in Hcap. apply negb_true_iff in Hcap. rewrite Hcap.
    destruct (isNegativeZero cap && isPositiveZero lowest);
      [now apply bounded_above_refl; unfold isNumber; rewrite Hcap|].
    destruct (cap <? lowest) eqn:E;
      [now apply bounded_above_refl; unfold isNumber; rewrite Hcap|].
    split; [exact E|]. intros Hl. apply not_ltb_leb; try assumption.
    unfold isNumber. now rewrite Hcap.
  - destruct (is_nan number); [apply bounded_above_nan|].
    destruct (isNegativeZero number && isPositiveZero lowest); [apply IH|].
    destruct (number <? lowest); apply IH.
Qed.

Lemma bounded_above_weaken (c c' r : float) :
  (c <=? c') = true -> bounded_above c r -> bounded_above c' r.
Proof.
  intros Hcc [Hgt Hle]. unfold bounded_above, gtb in *.
  destruct (is_nan r) eqn:En.
  - apply is_nan_Prim2SF in En. split.
    + rewrite ltb_spec, En. unfold SFltb. now destruct (Prim2SF c').
    + rewrite isNumber_Prim2SF. congruence.
  - assert (Hr : isNumber r = true) by (unfold isNumber; now rewrite En).
    pose proof (leb_trans _ _ _ (Hle Hr) Hcc) as H.
    split; [now apply leb_not_ltb | intros _; exact H].
Qed.

(** The fitted scale never exceeds the cap of the mode. *)
Lemma fittedScale_cap (s : State) :
  bounded_above (if isSinglePlateMode s then 2 else 1) (fittedScale s).
Proof.
  unfold fittedScale.
  set (allPlates := Math_min [_; _; 1]).
  assert (Hall : bounded_above 1 allPlates)
    by (apply (Math_min_from_last 1 [_; _]); reflexivity).
  destruct (isSinglePlateMode s); [|exact Hall].
  destruct (find _ _) as [plateToScale|].
  - apply (Math_min_from_last 2 [_; _]). reflexivity.
  - apply (bounded_above_weaken 1); [reflexivity | exact Hall].
Qed.

(** [Math.max] of the floor and a value bounded by the cap lies between the
    floor and the cap. *)
Lemma Math_max_floor (m cap f : float) :
  isNumber m = true -> isNegativeZero m = false ->
  gtb m neg_infinity = true -> bounded_above cap m ->
  bounded_above cap f ->
  bounded_above cap (Math_max [m; f]) /\ bounded_below m (Math_max [m; f]).
Proof.
  intros Hm Hz Hinf Hmcap Hf.
  unfold Math_max. simpl.
  unfold isNumber in Hm. apply negb_true_iff in Hm. rewrite Hm, Hinf, Hz.
  assert (Hm' : isNumber m = true) by (unfold isNumber; now rewrite Hm).
  change (isPositiveZero m && isNegativeZero neg_infinity) with (isPositiveZero m && false).
  rewrite !andb_false_r.
  destruct (is_nan f) eqn:En.
  - split; [apply bounded_above_nan|]. split; [apply ltb_nan_l | discriminate].
  - unfold gtb. destruct (m <? f) eqn:E.
    + split; [exact Hf|]. pose proof (ltb_leb _ _ E) as Hle.
      split; [now apply leb_not_ltb | intros _; exact Hle].
    + split; [exact Hmcap|]. split; [apply ltb_irrefl | intros _; now apply leb_refl].
Qed.

(** C8.  For every state of the component (in particular every non-empty plate
    list and every viewport size), the scale factor is the fitted value
    [Math.min(..., cap)] raised to the floor: it never exceeds the cap of the
    mode (2 when a single plate is shown, 1 otherwise) and never falls below the
    floor (0.3 on viewports narrower than 640, 0.2 otherwise); when it is a
    number it lies between the two. *)
Theorem scale_within_floor_and_cap (s : State) :
  let cap := if isSinglePlateMode s then 2 else 1 in
  let floor := if width (canvasDimensions s) <? 640 then 0.3 else 0.2 in
  finalScale s = Math_max [floor; fittedScale s]
  /\ gtb (finalScale s) cap = false
  /\ (finalScale s <? floor) = false
  /\ (isNumber (finalScale s) = true ->
      (floor <=? finalScale s) = true /\ (finalScale s <=? cap) = true).
Proof.
  intros cap floor.
  assert (H : bounded_above cap (finalScale s) /\ bounded_below floor (finalScale s)).
  { unfold finalScale. change (minScale s) with floor.
    pose proof (fittedScale_cap s) as Hf. fold cap in Hf.
    subst floor cap.
    destruct (width (canvasDimensions s) <? 640), (isSinglePlateMode s);
      apply Math_max_floor; try reflexivity; try exact Hf;
      (split; [reflexivity | intros _; reflexivity]). }
  destruct H as [[Hc1 Hc2] [Hf1 Hf2]].
  split; [reflexivity|]. split; [exact Hc1|]. split; [exact Hf1|].
  intros Hn. split; [now apply Hf2 | now apply Hc2].
Qed.

(** Two plates of 40 and 80 cm on a 1000 x 600 canvas are fitted at scale 1,
    between the floor 0.2 and the cap 1. *)
Lemma scale_within_floor_and_cap_witness :
  let p1 := Plate.mk "p1" 40 60 in
  let p2 := Plate.mk "p2" 80 60 in
  let s := mkState [p1; p2] [] None "" "" None {| width := 1000; height := 600 |}
             ∅ "" 0 false [] in
  finalScale s = 1 /\ (0.2 <=? finalScale s) = true /\ (finalScale s <=? 1) = true.
Proof.
  intros p1 p2 s.
  destruct (scale_within_floor_and_cap s) as (_ & _ & _ & H).
  split; [reflexivity|]. apply H. reflexivity.
Defined.

(** ** Uniform scaling

    Multiplication by a power of two commutes with rounding away from the
    subnormal range: a plate of 80 cm is rendered twice as wide as a plate of
    40 cm. *)

Lemma Zdigits2_nonneg (m : Z) : (0 <= Zdigits2 m)%Z.
Proof. destruct m; simpl; lia. Qed.

(** In the range of normal numbers the shift depends on the mantissa only. *)
Lemma shr_fexp_succ_exponent (m e : Z) (l : location) :
  (-1021 <= e)%Z ->
  shr_fexp prec emax m (e + 1) l
  = (fst (shr_fexp prec emax m e l), (snd (shr_fexp prec emax m e l) + 1)%Z).
Proof.
  intros He. unfold shr_fexp, fexp, SpecFloat.emin, prec, emax.
  pose proof (Zdigits2_nonneg m) as Hd.
  rewrite !Z.max_l by lia.
  replace (Zdigits2 m + (e + 1) - 53 - (e + 1))%Z with (Zdigits2 m - 53)%Z by lia.
  replace (Zdigits2 m + e - 53 - e)%Z with (Zdigits2 m - 53)%Z by lia.
  unfold shr. destruct (Zdigits2 m - 53)%Z; simpl; f_equal; lia.
Qed.

Lemma shr_fexp_exponent_ge (m e : Z) (l : location) :
  (e <= snd (shr_fexp prec emax m e l))%Z.
Proof.
  unfold shr_fexp, shr. destruct (_ - e)%Z; simpl; lia.
Qed.

(** Raising the exponent of the argument by one raises the exponent of the
    rounded result by one, up to overflow. *)
Lemma binary_round_aux_succ_exponent (s : bool) (m e : Z) (l : location) :
  (-1021 <= e)%Z ->
  binary_round_aux prec emax s m (e + 1) l
  = succ_exponent (binary_round_aux prec emax s m e l).
Proof.
  intros He. unfold binary_round_aux.
  rewrite shr_fexp_succ_exponent by assumption.
  pose proof (shr_fexp_exponent_ge m e l) as He'.
  destruct (shr_fexp prec emax m e l) as [mrs' e']. simpl in *.
  rewrite shr_fexp_succ_exponent by lia.
  destruct (shr_fexp prec emax _ e' loc_Exact) as [mrs'' e'']. simpl.
  destruct (shr_m mrs''); simpl; try reflexivity.
  unfold succ_exponent, emax, prec. change (1024 - 53)%Z with 971%Z.
  destruct (Z.leb_spec e'' 971) as [E1|E1];
    destruct (Z.leb_spec (e'' + 1) 971) as [E2|E2];
    try reflexivity; lia.
Qed.

Lemma binary_round_aux_exponent_ge (s s' : bool) (m e : Z) (l : location)
  (m' : positive) (e' : Z) :
  binary_round_aux prec emax s m e l = S754_finite s' m' e' -> (e <= e')%Z.
Proof.
  unfold binary_round_aux.
  pose proof (shr_fexp_exponent_ge m e l) as H1.
  destruct (shr_fexp prec emax m e l) as [mrs1 e1]. simpl in H1.
  pose proof (shr_fexp_exponent_ge
                (round_nearest_even (shr_m mrs1) (loc_of_shr_record mrs1)) e1 loc_Exact) as H2.
  destruct (shr_fexp prec emax _ e1 loc_Exact) as [mrs2 e2]. simpl in H2.
  destruct (shr_m mrs2); try discriminate.
  destruct (_ <=? _)%Z; try discriminate.
  intros [= _ _ <-]. lia.
Qed.

Lemma two_spec : Prim2SF 2 = S754_finite false 4503599627370496 (-51).
Proof. vm_compute. reflexivity. Qed.
Lemma mul_pow52 (m : positive) : Pos.mul 4503599627370496 m = Pos.iter xO m 52.
Proof. reflexivity. Qed.

Lemma digits_pow52 (m : positive) :
  digits2_pos (Pos.iter xO m 52) = Pos.iter Pos.succ (digits2_pos m) 52.
Proof. reflexivity. Qed.
Lemma shr_pow52 (m : positive) :
  SpecFloat.iter_pos shr_1 52 {| shr_m := Zpos (Pos.iter xO m 52); shr_r := false; shr_s := false |}
  = {| shr_m := Zpos m; shr_r := false; shr_s := false |}.
Proof. vm_compute. reflexivity. Qed.

Lemma shr_fexp_pow52 (m : positive) (e : Z) :
  digits2_pos m = 53%positive -> (-1073 <= e)%Z ->
  shr_fexp prec emax (Zpos (Pos.iter xO m 52)) (-51 + e) loc_Exact
  = ({| shr_m := Zpos m; shr_r := false; shr_s := false |}, (e + 1)%Z).
Proof.
  intros Hd He. unfold shr_fexp.
  change (Zdigits2 (Zpos (Pos.iter xO m 52))) with (Zpos (digits2_pos (Pos.iter xO m 52))).
  rewrite digits_pow52, Hd.
  change (Pos.iter Pos.succ 53%positive 52) with 105%positive.
  unfold fexp, SpecFloat.emin, prec, emax.
  rewrite Z.max_l by lia.
  replace (105 + (-51 + e) - 53 - (-51 + e))%Z with 52%Z by lia.
  change (shr_record_of_loc (Zpos (Pos.iter xO m 52)) loc_Exact)
    with {| shr_m := Zpos (Pos.iter xO m 52); shr_r := false; shr_s := false |}.
  unfold shr. rewrite shr_pow52. f_equal. lia.
Qed.

Lemma shr_fexp_normal (m : positive) (e : Z) :
  digits2_pos m = 53%positive -> (-1074 <= e)%Z ->
  shr_fexp prec emax (Zpos m) e loc_Exact
  = ({| shr_m := Zpos m; shr_r := false; shr_s := false |}, e).
Proof.
  intros Hd He. unfold shr_fexp.
  change (Zdigits2 (Zpos m)) with (Zpos (digits2_pos m)). rewrite Hd.
  unfold fexp, SpecFloat.emin, prec, emax.
  rewrite Z.max_l by lia.
  replace (53 + e - 53 - e)%Z with 0%Z by lia.
  reflexivity.
Qed.

Lemma SFmul_two (s : bool) (m : positive) (e : Z) :
  digits2_pos m = 53%positive -> (-1073 <= e)%Z ->
  SF64mul (Prim2SF 2) (S754_finite s m e) = succ_exponent (S754_finite s m e).
Proof.
  intros Hd He.
  rewrite two_spec.
  change (SF64mul (S754_finite false 4503599627370496 (-51)) (S754_finite s m e))
    with (binary_round_aux prec emax s (Zpos (Pos.mul 4503599627370496 m)) (-51 + e) loc_Exact).
  rewrite mul_pow52.
  unfold binary_round_aux.
  rewrite shr_fexp_pow52 by assumption.
  change (round_nearest_even _ _) with (Zpos m).
  rewrite shr_fexp_normal by (assumption || lia).
  reflexivity.
Qed.

(** Doubling commutes with scaling by 40. *)
Lemma double_of_forty (a : float) : normalRange a -> 80 * a = 2 * (40 * a).
Proof.
  unfold normalRange. intros Ha.
  apply Prim2SF_inj. rewrite !mul_spec.
  pose proof (Prim2SF_valid (40 * a)) as Hv. rewrite mul_spec in Hv.
  change (Prim2SF 80) with (S754_finite false 5629499534213120 (-46)).
  change (Prim2SF 40) with (S754_finite false 5629499534213120 (-47)) in *.
  rewrite two_spec.
  destruct (Prim2SF a) as [sa|sa| |sa ma ea]; try reflexivity.
  change (SF64mul (S754_finite false 5629499534213120 (-46)) (S754_finite sa ma ea))
    with (binary_round_aux prec emax sa (Zpos (5629499534213120 * ma)) (-46 + ea) loc_Exact).
  replace (-46 + ea)%Z with (-47 + ea + 1)%Z by lia.
  change (SF64mul (S754_finite false 5629499534213120 (-47)) (S754_finite sa ma ea))
    with (binary_round_aux prec emax sa (Zpos (5629499534213120 * ma)) (-47 + ea) loc_Exact) in *.
  rewrite binary_round_aux_succ_exponent by lia.
  destruct (binary_round_aux prec emax sa _ (-47 + ea) loc_Exact) as [s'|s'| |s' m' e'] eqn:ER;
    try reflexivity.
  apply binary_round_aux_exponent_ge in ER.
  rewrite <- two_spec. symmetry. apply SFmul_two; [|lia].
  simpl in Hv. unfold bounded, canonical_mantissa, fexp, SpecFloat.emin, prec, emax in Hv.
  apply andb_true_iff in Hv as [Hc _]. apply Z.eqb_eq in Hc. lia.
Qed.

Lemma leb_normalRange (a : float) : (0.2 <=? a) = true -> normalRange a.
Proof.
  unfold normalRange. rewrite leb_spec.
  change (Prim2SF 0.2) with (S754_finite false 7205759403792794 (-55)).
  destruct (Prim2SF a) as [sa|sa| |sa ma ea]; try tauto.
  destruct sa; [discriminate|].
  cbv beta iota delta [SFleb SFcompare].
  destruct (Z.compare_spec (-55) ea); try discriminate; lia.
Qed.

(** The scale lies between the floor and the cap of the mode. *)
Lemma finalScale_bounds (s : State) :
  bounded_above (if isSinglePlateMode s then 2 else 1) (finalScale s)
  /\ bounded_below (minScale s) (finalScale s).
Proof.
  unfold finalScale.
  pose proof (fittedScale_cap s) as Hf.
  unfold minScale.
  destruct (isMobile s), (isSinglePlateMode s);
    apply Math_max_floor; try reflexivity; try exact Hf;
    (split; [reflexivity | intros _; reflexivity]).
Qed.

(** The scale the renderer reads back is in the normal range. *)
Lemma finalScale_normalRange (s : State) : normalRange (orZero (Some (finalScale s))).
Proof.
  unfold orZero.
  destruct (is_nan (finalScale s)) eqn:En; [exact I|]. simpl.
  destruct (is_zero (finalScale s)); [exact I|].
  apply leb_normalRange.
  assert (Hn : isNumber (finalScale s) = true) by (unfold isNumber; now rewrite En).
  destruct (finalScale_bounds s) as [_ [_ H]]. specialize (H Hn).
  apply (leb_trans _ (minScale s)); [|exact H].
  unfold minScale. destruct (isMobile s); reflexivity.
Qed.

(** The [forEach] loop gives every plate of the list the same scale. *)
Lemma assignScales_keep (scale : float) (ps : list Plate.t)
  (scales : gmap string float) (i : string) :
  scales !! i = Some scale ->
  foldl (fun scales plate => setProperty (Plate.id plate) scale scales) scales ps !! i
  = Some scale.
Proof.
  revert scales. induction ps as [|p rest IH]; intros scales Hi; simpl; [exact Hi|].
  apply IH. unfold setProperty.
  destruct (String.eqb (Plate.id p) "__proto__"); [exact Hi|].
  destruct (decide (Plate.id p = i)) as [<-|Hne].
  - apply lookup_insert_eq.
  - now rewrite lookup_insert_ne.
Qed.

Lemma assignScales_lookup (scale : float) (ps : list Plate.t) (p : Plate.t) :
  In p ps -> Plate.id p <> "__proto__" ->
  assignScales scale ps !! Plate.id p = Some scale.
Proof.
  unfold assignScales. generalize (∅ : gmap string float).
  induction ps as [|q rest IH]; intros scales; simpl; [tauto|].
  intros [-> | Hin] Hid; [|now apply IH].
  apply assignScales_keep. unfold setProperty.
  apply String.eqb_neq in Hid. rewrite Hid. apply lookup_insert_eq.
Qed.

Lemma scalingEffect_result (s : State) :
  (width (canvasDimensions s) =? 0) = false -> plates s <> [] ->
  plates (scalingEffect s) = plates s
  /\ plateScales (scalingEffect s) = assignScales (finalScale s) (plates s).
Proof.
  intros Hw Hp. unfold scalingEffect. rewrite Hw.
  assert (Hl : Nat.eqb (length (plates s)) 0 = false)
    by (destruct (plates s); [congruence | reflexivity]).
  rewrite Hl. cbv zeta. simpl orb. cbv iota.
  destruct (negb (isSinglePlateMode s) && Nat.ltb 0 (length (plates s)));
    [destruct (_ <? _)|]; split; reflexivity.
Qed.

(** C9.  After a scale computation every plate whose id is not ["__proto__"]
    holds the same scale factor, so that each rendered width is the real width
    times one common factor, rounded once; in particular a plate of 80 cm is
    rendered exactly twice as wide as a plate of 40 cm, whatever the viewport
    is. *)
Theorem uniform_scale (s : State) :
  (width (canvasDimensions s) =? 0) = false -> plates s <> [] ->
  let s' := scalingEffect s in
  (forall p, In p (plates s') -> Plate.id p <> "__proto__" ->
     plateScales s' !! Plate.id p = Some (finalScale s))
  /\ (forall p, In p (plates s') -> Plate.id p <> "__proto__" ->
        plateWidthPx (plateScales s') p = Plate.width p * orZero (Some (finalScale s)))
  /\ (forall p q, In p (plates s') -> In q (plates s') ->
        Plate.id p <> "__proto__" -> Plate.id q <> "__proto__" ->
        Plate.width p = 40 -> Plate.width q = 80 ->
        plateWidthPx (plateScales s') q = 2 * plateWidthPx (plateScales s') p).
Proof.
  intros Hw Hp s'.
  destruct (scalingEffect_result s Hw Hp) as [Epl Esc]. fold s' in Epl, Esc.
  rewrite Epl, Esc.
  assert (Hpx : forall p, In p (plates s) -> Plate.id p <> "__proto__" ->
            plateWidthPx (assignScales (finalScale s) (plates s)) p
            = Plate.width p * orZero (Some (finalScale s))).
  { intros p Hin Hid. unfold plateWidthPx. now rewrite assignScales_lookup. }
  split; [intros p Hin Hid; now apply assignScales_lookup|].
  split; [exact Hpx|].
  intros p q Hinp Hinq Hidp Hidq Hp40 Hq80.
  rewrite (Hpx p Hinp Hidp), (Hpx q Hinq Hidq), Hp40, Hq80.
  apply double_of_forty, finalScale_normalRange.
Qed.

(** Plates of 40 and 80 cm on a 1000 x 600 canvas: both get the scale 1 and are
    rendered 40 and 80 wide. *)
Lemma uniform_scale_witness :
  let p1 := Plate.mk "p1" 40 60 in
  let p2 := Plate.mk "p2" 80 60 in
  let s := mkState [p1; p2] [] None "" "" None {| width := 1000; height := 600 |}
             ∅ "" 0 false [] in
  plateScales (scalingEffect s) !! "p1" = Some 1
  /\ plateWidthPx (plateScales (scalingEffect s)) p2
     = 2 * plateWidthPx (plateScales (scalingEffect s)) p1.
Proof.
  intros p1 p2 s.
  destruct (uniform_scale s eq_refl ltac:(discriminate)) as (Hs & _ & Hd).
  split.
  - apply (Hs p1); [simpl; tauto | discriminate].
  - apply (Hd p1 p2); try discriminate; simpl; tauto.
Defined.

(** C9 does not hold for every pair of plates: on a canvas of 360 x 700, plates
    of 40, 120 and 200 cm get the scale 320 / 360; the plates of 40 and 120 cm
    are rendered 35.555555555555557 and 106.66666666666666 wide, and the
    quotient of the two rendered widths is not 120 / 40 = 3. *)
Lemma rendered_ratio_not_exact :
  let p1 := Plate.mk "1" 40 100 in
  let p2 := Plate.mk "2" 120 100 in
  let p3 := Plate.mk "3" 200 100 in
  let s := mkState [p1; p2; p3] [] None "" "" None {| width := 360; height := 700 |}
             ∅ "" 0 false [] in
  let s' := scalingEffect s in
  ~ (forall p q, In p (plates s') -> In q (plates s') ->
       plateWidthPx (plateScales s') q / plateWidthPx (plateScales s') p
       = Plate.width q / Plate.width p)
  /\ plateWidthPx (plateScales s') p1 = 35.555555555555557
  /\ plateWidthPx (plateScales s') p2 = 106.66666666666666
  /\ Plate.width p2 / Plate.width p1 = 3
  /\ (plateWidthPx (plateScales s') p2 / plateWidthPx (plateScales s') p1 =? 3) = false
  /\ (3 * plateWidthPx (plateScales s') p1 =? plateWidthPx (plateScales s') p2) = false.
Proof.
  intros p1 p2 p3 s s'.
  split; [|repeat split; vm_compute; reflexivity].
  intros H. specialize (H p1 p2).
  assert (Hin1 : In p1 (plates s')) by (vm_compute; tauto).
  assert (Hin2 : In p2 (plates s')) by (vm_compute; tauto).
  specialize (H Hin1 Hin2).
  apply (f_equal (fun a => a =? 3)) in H. vm_compute in H. discriminate H.
Qed.

(** ** The left-edge boundary in binary64 *)

Lemma digits2_pos_size (p : positive) : digits2_pos p = Pos.size p.
Proof. induction p as [p IH|p IH|]; simpl; congruence. Qed.

Lemma digits2_pos_bounds (p : positive) :
  (2 ^ (Zpos (digits2_pos p) - 1) <= Zpos p < 2 ^ Zpos (digits2_pos p))%Z.
Proof.
  rewrite digits2_pos_size.
  pose proof (Pos.size_gt p) as Hgt. pose proof (Pos.size_le p) as Hle.
  apply Pos2Z.pos_lt_pos in Hgt. apply Pos2Z.pos_le_pos in Hle.
  rewrite Pos2Z.inj_pow in Hgt, Hle.
  change (Zpos p~0) with (2 * Zpos p)%Z in Hle.
  replace (Zpos (Pos.size p)) with (Z.succ (Zpos (Pos.size p) - 1))%Z in Hle at 1 by lia.
  rewrite Z.pow_succ_r in Hle by lia.
  lia.
Qed.

Lemma digits2_pos_le (p : positive) (n : Z) :
  (Zpos p < 2 ^ n)%Z -> (Zpos (digits2_pos p) <= n)%Z.
Proof.
  intros Hp. destruct (digits2_pos_bounds p) as [Hlo _].
  destruct (Z.le_gt_cases (Zpos (digits2_pos p)) n) as [|Hgt]; [assumption|].
  assert (0 <= n)%Z.
  { destruct (Z.le_gt_cases 0 n); [assumption|]. rewrite Z.pow_neg_r in Hp by lia. lia. }
  assert (2 ^ n <= 2 ^ (Zpos (digits2_pos p) - 1))%Z by (apply Z.pow_le_mono_r; lia).
  lia.
Qed.

Lemma digits2_pos_ge (p : positive) (n : Z) :
  (2 ^ n <= Zpos p)%Z -> (n < Zpos (digits2_pos p))%Z.
Proof.
  intros Hp. destruct (digits2_pos_bounds p) as [_ Hhi].
  destruct (Z.lt_ge_cases n (Zpos (digits2_pos p))) as [|Hge]; [assumption|].
  assert (2 ^ Zpos (digits2_pos p) <= 2 ^ n)%Z by (apply Z.pow_le_mono_r; lia).
  lia.
Qed.

Lemma digits2_pos_shift (p d : positive) :
  digits2_pos (Pos.iter xO p d) = (digits2_pos p + d)%positive.
Proof.
  induction d as [|d IH] using Pos.peano_ind.
  - simpl. now rewrite Pos.add_1_r.
  - rewrite Pos.iter_succ. simpl. rewrite IH. now rewrite Pos.add_succ_r.
Qed.

Lemma shift_value (p d : positive) :
  Zpos (Pos.iter xO p d) = (2 ^ Zpos d * Zpos p)%Z.
Proof. exact (Zpower.shift_pos_correct d p). Qed.

(** The mantissa and exponent of a valid finite binary64 number. *)
Lemma valid_finite (s : bool) (m : positive) (e : Z) :
  valid_binary (S754_finite s m e) = true ->
  (Zpos m < 9007199254740992
   /\ (-1074 < e -> 4503599627370496 <= Zpos m) /\ -1074 <= e <= 971)%Z.
Proof.
  change 9007199254740992%Z with (2 ^ 53)%Z. change 4503599627370496%Z with (2 ^ 52)%Z.
  cbv beta iota delta [valid_binary SpecFloat.valid_binary]. unfold bounded, canonical_mantissa, fexp, SpecFloat.emin, prec, emax.
  intros Hv. apply andb_true_iff in Hv as [Hc He].
  apply Z.eqb_eq in Hc. apply Z.leb_le in He.
  destruct (digits2_pos_bounds m) as [Hlo Hhi].
  assert (Hd : (Zpos (digits2_pos m) <= 53)%Z) by lia.
  split; [|split; [|lia]].
  - assert (2 ^ Zpos (digits2_pos m) <= 2 ^ 53)%Z by (apply Z.pow_le_mono_r; lia). lia.
  - intros Hn. assert (Zpos (digits2_pos m) = 53)%Z as E by lia.
    rewrite E in Hlo. exact Hlo.
Qed.

(** A mantissa of 53 digits is not rounded. *)
Lemma binary_round_aux_normal (s : bool) (m : positive) (e : Z) :
  digits2_pos m = 53%positive -> (-1074 <= e <= 971)%Z ->
  binary_round_aux prec emax s (Zpos m) e loc_Exact = S754_finite s m e.
Proof.
  intros Hd He. unfold binary_round_aux.
  rewrite shr_fexp_normal by (assumption || lia).
  change (round_nearest_even _ _) with (Zpos m).
  rewrite shr_fexp_normal by (assumption || lia).
  cbv beta iota delta [shr_m]. unfold emax, prec.
  destruct (Z.leb_spec e (1024 - 53)); [reflexivity | lia].
Qed.

(** An integer of at most 53 digits is represented exactly. *)
Lemma binary_round_exact (s : bool) (p : positive) (e : Z) :
  (Zpos p < 9007199254740992)%Z -> (-1021 <= e <= 971)%Z ->
  exists m e', binary_round prec emax s p e = S754_finite s m e'
               /\ digits2_pos m = 53%positive
               /\ (e' <= e)%Z /\ (e' = e -> m = p).
Proof.
  intros Hp He. unfold binary_round, shl_align, fexp, SpecFloat.emin, prec, emax.
  change 9007199254740992%Z with (2 ^ 53)%Z in Hp.
  pose proof (digits2_pos_le p 53 Hp) as Hd. clear Hp.
  set (d := digits2_pos p) in *.
  rewrite Z.max_l by lia.
  destruct (Zpos d + e - 53 - e)%Z as [|k|k] eqn:Ek; try lia.
  - exists p, e. rewrite binary_round_aux_normal; [|fold d; lia|lia].
    repeat split; [fold d; lia | lia].
  - exists (Pos.iter xO p k), (Zpos d + e - 53)%Z.
    assert (Hk : digits2_pos (Pos.iter xO p k) = 53%positive)
      by (rewrite digits2_pos_shift; fold d; lia).
    rewrite binary_round_aux_normal; [|exact Hk|lia].
    repeat split; [exact Hk | lia | lia].
Qed.

Lemma compare_cont_lt (p q : positive) :
  Pos.compare_cont Eq p q = Lt <-> (Zpos p < Zpos q)%Z.
Proof. exact (Pos.compare_lt_iff p q). Qed.

Lemma three_spec : Prim2SF 3 = S754_finite false 6755399441055744 (-51).
Proof. reflexivity. Qed.

Lemma anchor_offset_spec : Prim2SF 3.5 = S754_finite false 7881299347898368 (-51).
Proof. reflexivity. Qed.

Lemma boundary_spec : Prim2SF 6.5 = S754_finite false 7318349394477056 (-50).
Proof. reflexivity. Qed.

Lemma negative_below_three (r : spec_float) :
  signed true r -> SFltb r (S754_finite false 6755399441055744 (-51)) = true.
Proof. destruct r as [s|s| |s m e]; simpl; try tauto; intros ->; reflexivity. Qed.

(** An integer multiple of [2^-51] below [3 * 2^51] is rounded to a number
    below 3. *)
Lemma binary_normalize_below_three (z : Z) :
  (z < 6755399441055744)%Z ->
  SFltb (binary_normalize prec emax z (-51) false)
        (S754_finite false 6755399441055744 (-51)) = true.
Proof.
  intros Hz. destruct z as [|p|p]; cbv beta iota delta [binary_normalize].
  - reflexivity.
  - destruct (binary_round_exact false p (-51)) as (m & e' & -> & _ & He' & Hm); [lia|lia|].
    cbv beta iota delta [SFltb SFcompare].
    destruct (Z.compare_spec e' (-51)) as [E|E|E]; try reflexivity; [|lia].
    rewrite (Hm E), (proj2 (compare_cont_lt _ _) Hz). reflexivity.
  - apply negative_below_three, binary_round_signed.
Qed.

Lemma binary_normalize_negative (z e : Z) :
  (z < 0)%Z ->
  SFltb (binary_normalize prec emax z e false)
        (S754_finite false 6755399441055744 (-51)) = true.
Proof.
  intros Hz. destruct z as [|p|p]; try lia.
  apply negative_below_three, binary_round_signed.
Qed.

(** Every anchor below 6.5 puts the left edge of the box below 3. *)
Lemma anchor_below_boundary (positionX : float) :
  (positionX <? 6.5) = true -> (positionX - 3.5 <? 3) = true.
Proof.
  rewrite !ltb_spec, sub_spec, boundary_spec, anchor_offset_spec, three_spec.
  pose proof (Prim2SF_valid positionX) as Hv.
  destruct (Prim2SF positionX) as [s|s| |s m e].
  - intros _. reflexivity.
  - destruct s; [reflexivity | discriminate].
  - discriminate.
  - apply valid_finite in Hv as (Hm & Hn & He).
    intros Hlt.
    assert (Hcase : s = true \/ (s = false /\ (e < -50 \/ (e = -50 /\ Zpos m < 7318349394477056))%Z)).
    { destruct s; [now left | right]. split; [reflexivity|].
      revert Hlt. cbv beta iota delta [SFltb SFcompare].
      destruct (Z.compare_spec e (-50)) as [E|E|E]; try discriminate; [|lia].
      destruct (Pos.compare_cont Eq m _) eqn:Ec; try discriminate.
      apply compare_cont_lt in Ec. intros _. right. split; [exact E | exact Ec]. }
    clear Hlt.
    change (SF64sub (S754_finite s m e) (S754_finite false 7881299347898368 (-51)))
      with (binary_normalize prec emax
              (cond_Zopp s (Zpos (fst (shl_align m e (Z.min e (-51)))))
               - Zpos (fst (shl_align 7881299347898368 (-51) (Z.min e (-51)))))
              (Z.min e (-51)) false).
    destruct Hcase as [-> | [-> Hcase]].
    + (* a negative anchor *)
      apply binary_normalize_negative. simpl cond_Zopp. lia.
    + simpl cond_Zopp.
      destruct (Z.le_gt_cases e (-52)) as [Hsmall|Hlarge].
      * (* below 2: the difference is negative *)
        rewrite Z.min_l by lia. unfold shl_align.
        rewrite Z.sub_diag. simpl fst at 1.
        destruct (e - -51)%Z as [|k|k] eqn:Ek; try lia. simpl fst.
        rewrite shift_value.
        assert (2 <= 2 ^ Zpos k)%Z by (change 2%Z with (2 ^ 1)%Z at 1; apply Z.pow_le_mono_r; lia).
        apply binary_normalize_negative. nia.
      * rewrite Z.min_r by lia.
        apply binary_normalize_below_three.
        unfold shl_align.
        assert (E : e = (-51)%Z \/ e = (-50)%Z) by lia.
        destruct E as [-> | ->]; simpl; lia.
Qed.

Lemma shr_1_ge (k : Z) (r : shr_record) :
  (0 <= k)%Z -> (2 ^ (k + 1) <= shr_m r)%Z -> (2 ^ k <= shr_m (shr_1 r))%Z.
Proof.
  intros Hk. rewrite Z.pow_add_r by lia. change (2 ^ 1)%Z with 2%Z.
  assert (0 < 2 ^ k)%Z by (apply Z.pow_pos_nonneg; lia).
  destruct r as [m rr ss]. destruct m as [|[p|p|]|p]; simpl; lia.
Qed.

Lemma iter_shr_1_ge (n : positive) : forall (k : Z) (r : shr_record),
  (0 <= k)%Z -> (2 ^ (k + Zpos n) <= shr_m r)%Z ->
  (2 ^ k <= shr_m (SpecFloat.iter_pos shr_1 n r))%Z.
Proof.
  induction n as [n IH|n IH|]; intros k r Hk Hr; simpl.
  - apply IH; [assumption|]. apply IH; [lia|]. apply shr_1_ge; [lia|].
    replace (k + Zpos n + Zpos n + 1)%Z with (k + Zpos n~1)%Z by lia. exact Hr.
  - apply IH; [assumption|]. apply IH; [lia|].
    replace (k + Zpos n + Zpos n)%Z with (k + Zpos n~0)%Z by lia. exact Hr.
  - now apply shr_1_ge.
Qed.

Lemma shr_record_of_loc_m (m : Z) (l : location) : shr_m (shr_record_of_loc m l) = m.
Proof. destruct l as [|[]]; reflexivity. Qed.

(** Shifting a mantissa of at least 53 digits leaves 53 digits, and raises the
    exponent when there were more. *)
Lemma shr_fexp_large (m e : Z) (l : location) :
  (2 ^ 52 <= m)%Z -> (-1074 <= e)%Z ->
  (2 ^ 52 <= shr_m (fst (shr_fexp prec emax m e l)))%Z
  /\ (e <= snd (shr_fexp prec emax m e l))%Z
  /\ (2 ^ 53 <= m -> e < snd (shr_fexp prec emax m e l))%Z.
Proof.
  intros Hm He.
  assert (0 < 2 ^ 52)%Z by (apply Z.pow_pos_nonneg; lia).
  destruct m as [|p|p]; try lia.
  pose proof (digits2_pos_ge p 52 Hm) as Hd.
  destruct (digits2_pos_bounds p) as [Hlo _].
  unfold shr_fexp, fexp, SpecFloat.emin, prec, emax.
  change (Zdigits2 (Zpos p)) with (Zpos (digits2_pos p)).
  set (d := Zpos (digits2_pos p)) in *.
  rewrite Z.max_l by lia.
  unfold shr. destruct (d + e - 53 - e)%Z as [|n|n] eqn:En; try lia.
  - cbn [fst snd]. rewrite shr_record_of_loc_m.
    split; [exact Hm|]. split; [lia|]. intros H53.
    pose proof (digits2_pos_ge p 53 H53). fold d in H0. lia.
  - cbn [fst snd]. split; [|lia].
    apply iter_shr_1_ge; [lia|]. rewrite shr_record_of_loc_m.
    replace (52 + Zpos n)%Z with (d - 1)%Z by lia. exact Hlo.
Qed.

Lemma round_nearest_even_ge (m : Z) (l : location) : (m <= round_nearest_even m l)%Z.
Proof. destruct l as [|[]]; simpl; try lia. destruct (Z.even m); lia. Qed.

(** Rounding an integer of more than 53 digits raises the exponent. *)
Lemma binary_round_aux_large (m e : Z) (l : location) :
  (2 ^ 53 <= m)%Z -> (-1074 <= e)%Z ->
  binary_round_aux prec emax false m e l = S754_infinity false
  \/ exists m' e', binary_round_aux prec emax false m e l = S754_finite false m' e'
                   /\ (e < e')%Z.
Proof.
  intros Hm He.
  assert (H52 : (2 ^ 52 <= 2 ^ 53)%Z) by (apply Z.pow_le_mono_r; lia).
  assert (Hpos : (0 < 2 ^ 52)%Z) by (apply Z.pow_pos_nonneg; lia).
  unfold binary_round_aux.
  destruct (shr_fexp_large m e l) as (H1 & _ & H1e); [lia|lia|].
  specialize (H1e Hm).
  destruct (shr_fexp prec emax m e l) as [mrs1 e1]. cbn [fst snd] in H1, H1e.
  pose proof (round_nearest_even_ge (shr_m mrs1) (loc_of_shr_record mrs1)) as Hr.
  destruct (shr_fexp_large (round_nearest_even (shr_m mrs1) (loc_of_shr_record mrs1))
              e1 loc_Exact) as (H2 & H2e & _); [lia|lia|].
  destruct (shr_fexp prec emax _ e1 loc_Exact) as [mrs2 e2]. cbn [fst snd] in H2, H2e.
  destruct (shr_m mrs2) as [|m'|m']; try lia.
  destruct (e2 <=? emax - prec)%Z; [right | now left].
  exists m', e2. split; [reflexivity | lia].
Qed.

(** An integer multiple of [2^-51] from [3 * 2^51] on is rounded to a number
    that is not below 3. *)
Lemma binary_round_from_three (p : positive) :
  (6755399441055744 <= Zpos p)%Z ->
  SFltb (binary_round prec emax false p (-51))
        (S754_finite false 6755399441055744 (-51)) = false.
Proof.
  intros Hp.
  assert (H52 : (2 ^ 52 <= Zpos p)%Z) by (change (2 ^ 52)%Z with 4503599627370496%Z; lia).
  pose proof (digits2_pos_ge p 52 H52) as Hd.
  unfold binary_round, shl_align, fexp, SpecFloat.emin, prec, emax.
  set (d := Zpos (digits2_pos p)) in *.
  rewrite Z.max_l by lia.
  destruct (d + -51 - 53 - -51)%Z as [|k|k] eqn:Ek; try lia; cbv beta iota.
  - rewrite binary_round_aux_normal; [|fold d in Ek |- *; lia|lia].
    cbv beta iota delta [SFltb SFcompare]. rewrite Z.compare_refl.
    destruct (Pos.compare_cont Eq p _) eqn:Ec; try reflexivity.
    apply (proj1 (compare_cont_lt _ _)) in Ec. lia.
  - assert (H53 : (2 ^ 53 <= Zpos p)%Z).
    { destruct (digits2_pos_bounds p) as [Hlo _]. fold d in Hlo.
      assert (2 ^ 53 <= 2 ^ (d - 1))%Z by (apply Z.pow_le_mono_r; lia). lia. }
    pose proof (binary_round_aux_large (Zpos p) (-51) loc_Exact H53 ltac:(lia)) as Hl.
    unfold prec, emax in Hl.
    destruct Hl as [-> | (m' & e' & -> & He')]; [reflexivity|].
    cbv beta iota delta [SFltb SFcompare].
    destruct (Z.compare_spec e' (-51)); try reflexivity; lia.
Qed.

Lemma compare_cont_le (p q : positive) :
  Pos.compare_cont Eq p q <> Gt <-> (Zpos p <= Zpos q)%Z.
Proof. exact (Pos.compare_le_iff p q). Qed.

Lemma binary_normalize_from_three (z : Z) :
  (6755399441055744 <= z)%Z ->
  SFltb (binary_normalize prec emax z (-51) false)
        (S754_finite false 6755399441055744 (-51)) = false.
Proof.
  intros Hz. destruct z as [|p|p]; try lia.
  now apply binary_round_from_three.
Qed.

(** No anchor from 6.5 on puts the left edge of the box below 3. *)
Lemma anchor_from_boundary (positionX : float) :
  (6.5 <=? positionX) = true -> (positionX - 3.5 <? 3) = false.
Proof.
  rewrite leb_spec, ltb_spec, sub_spec, boundary_spec, anchor_offset_spec, three_spec.
  pose proof (Prim2SF_valid positionX) as Hv.
  destruct (Prim2SF positionX) as [s|s| |s m e].
  - discriminate.
  - destruct s; [discriminate | reflexivity].
  - discriminate.
  - apply valid_finite in Hv as (Hm & Hn & He).
    intros Hle.
    assert (Hcase : s = false
                    /\ (-50 < e \/ (e = -50 /\ 7318349394477056 <= Zpos m))%Z).
    { destruct s; [discriminate|]. split; [reflexivity|].
      revert Hle. cbv beta iota delta [SFleb SFcompare].
      destruct (Z.compare_spec (-50) e) as [E|E|E]; try discriminate; [|lia].
      intros Hc. right. split; [lia|]. apply (proj1 (compare_cont_le _ m)).
      intros Ec. rewrite Ec in Hc. discriminate. }
    clear Hle. destruct Hcase as [-> Hcase].
    change (SF64sub (S754_finite false m e) (S754_finite false 7881299347898368 (-51)))
      with (binary_normalize prec emax
              (Zpos (fst (shl_align m e (Z.min e (-51))))
               - Zpos (fst (shl_align 7881299347898368 (-51) (Z.min e (-51)))))
              (Z.min e (-51)) false).
    rewrite Z.min_r by lia. unfold shl_align.
    rewrite Z.sub_diag. cbn [fst].
    destruct (-51 - e)%Z as [|k|k] eqn:Ek; try lia. cbn [fst].
    rewrite shift_value.
    apply binary_normalize_from_three.
    destruct Hcase as [Hbig | [-> Hbig]].
    + assert (4 <= 2 ^ Zpos k)%Z
        by (change 4%Z with (2 ^ 2)%Z; apply Z.pow_le_mono_r; lia).
      specialize (Hn ltac:(lia)). nia.
    + assert (k = 1%positive) as -> by lia. change (2 ^ 1)%Z with 2%Z. lia.
Qed.

Lemma left_edge_test (positionX : float) (count : float) (direction : Direction)
  (positionY : float) :
  boxLeft (groupBox count direction positionX positionY) = positionX - 3.5.
Proof. reflexivity. Qed.

(** C1.  On a plate of width 100, for a group of one socket (any direction), the
    candidate anchor [positionX = 6.4] is rejected with the left-edge error, whose
    minimum allowed anchor is 6.5, whatever [positionY] and the other groups are;
    at [positionX = 6.5] the left-edge check does not fire, and the candidate is
    accepted as soon as the bottom, top and inter-group checks pass: the left
    boundary [boxLeft >= 3] is inclusive.  The minimum valid anchor is exactly
    6.5: every anchor below 6.5 is rejected with the left-edge error, and at no
    anchor from 6.5 on does the left-edge check fire. *)
Theorem left_edge_boundary (socketGroup : SocketGroup.t) (positionY : float)
  (plate : Plate.t) (allSocketGroups : list SocketGroup.t) :
  SocketGroup.count socketGroup = 1 ->
  Plate.width plate = 100 ->
  let b := groupBox 1 (SocketGroup.direction socketGroup) 6.5 positionY in
  validateSocketPosition socketGroup 6.4 positionY plate allSocketGroups
  = invalid (TooCloseToLeftEdge 6.5 100 7) 6.4 positionY
  /\ (forall m w g,
        ValidatedPosition.error
          (validateSocketPosition socketGroup 6.5 positionY plate allSocketGroups)
        <> Some (TooCloseToLeftEdge m w g))
  /\ ((boxBottom b <? MIN_EDGE_DISTANCE) = false ->
      gtb (boxTop b) (Plate.height plate - MIN_EDGE_DISTANCE) = false ->
      (forall other, In other allSocketGroups -> sibling socketGroup other ->
         (rectDistance b (boxOf other) <? MIN_GROUP_DISTANCE) = false) ->
      validateSocketPosition socketGroup 6.5 positionY plate allSocketGroups
      = ValidatedPosition.mk true None 6.5 positionY)
  /\ (forall positionX, (positionX <? 6.5) = true ->
        validateSocketPosition socketGroup positionX positionY plate allSocketGroups
        = invalid (TooCloseToLeftEdge 6.5 100 7) positionX positionY)
  /\ (forall positionX, (6.5 <=? positionX) = true ->
        forall m w g,
          ValidatedPosition.error
            (validateSocketPosition socketGroup positionX positionY plate allSocketGroups)
          <> Some (TooCloseToLeftEdge m w g)).
Proof.
  intros Hcount Hwidth b.
  assert (Hbelow : forall positionX, (positionX <? 6.5) = true ->
            validateSocketPosition socketGroup positionX positionY plate allSocketGroups
            = invalid (TooCloseToLeftEdge 6.5 100 7) positionX positionY).
  { intros positionX Hlt. rewrite validateSocketPosition_cases. cbv zeta.
    rewrite Hcount, Hwidth, single_socket_width, left_edge_test.
    change MIN_EDGE_DISTANCE with 3.
    rewrite (anchor_below_boundary positionX Hlt). reflexivity. }
  assert (Hfrom : forall positionX, (6.5 <=? positionX) = true ->
            forall m w g,
              ValidatedPosition.error
                (validateSocketPosition socketGroup positionX positionY plate allSocketGroups)
              <> Some (TooCloseToLeftEdge m w g)).
  { intros positionX Hle m w g. rewrite validateSocketPosition_cases. cbv zeta.
    rewrite left_edge_test. change MIN_EDGE_DISTANCE with 3.
    rewrite (anchor_from_boundary positionX Hle).
    repeat match goal with
           | |- context [if ?c then _ else _] => destruct c
           | |- context [match ?c with Some _ => _ | None => _ end] => destruct c
           end; simpl; congruence. }
  split; [apply Hbelow; reflexivity|].
  split; [apply Hfrom; reflexivity|].
  split; [|split; [exact Hbelow | exact Hfrom]].
  intros Hbottom Htop Hgroups.
  rewrite validateSocketPosition_cases. subst b. rewrite Hcount, Hwidth.
  cbv zeta. rewrite single_socket_width.
  set (dir := SocketGroup.direction socketGroup) in *.
  assert (Hright : gtb (boxRight (groupBox 1 dir 6.5 positionY)) (100 - MIN_EDGE_DISTANCE) = false)
    by (destruct dir; reflexivity).
  change (boxLeft (groupBox 1 dir 6.5 positionY) <? MIN_EDGE_DISTANCE) with false.
  cbv iota. rewrite Hright, Hbottom, Htop.
  assert (Hloop : groupLoop socketGroup 6.5 positionY 7
                    (height (calculateSocketGroupDimensions 1 dir)) allSocketGroups = None).
  { apply groupLoop_None. intros other Hin Hsib.
    specialize (Hgroups other Hin Hsib).
    rewrite <- single_socket_width with (direction := dir) at 1.
    rewrite totalDistance_rectDistance. exact Hgroups. }
  rewrite Hloop. reflexivity.
Qed.

(** A plate of 100 x 60 cm with no other group: a single vertical socket at
    [positionY = 10] is rejected at 6.4, at 6.46 and at the largest number
    below 6.5, and accepted at 6.5. *)
Lemma left_edge_boundary_witness :
  let g := SocketGroup.mk "g1" "p1" 1 vertical 6.5 10 in
  let plate := Plate.mk "p1" 100 60 in
  validateSocketPosition g 6.4 10 plate [] = invalid (TooCloseToLeftEdge 6.5 100 7) 6.4 10
  /\ validateSocketPosition g 6.5 10 plate [] = ValidatedPosition.mk true None 6.5 10
  /\ validateSocketPosition g 6.46 10 plate []
     = invalid (TooCloseToLeftEdge 6.5 100 7) 6.46 10
  /\ validateSocketPosition g (next_down 6.5) 10 plate []
     = invalid (TooCloseToLeftEdge 6.5 100 7) (next_down 6.5) 10.
Proof.
  intros g plate.
  destruct (left_edge_boundary g 10 plate [] eq_refl eq_refl) as (H64 & _ & H65 & Hbelow & _).
  split; [exact H64|].
  split; [apply H65; [reflexivity | reflexivity | intros other []]|].
  split; apply Hbelow; reflexivity.
Defined.

(** ** Anchor and bounding box *)

(** The validator's box and the renderer's position both place the group's
    left edge at [positionX - 3.5] and its bottom edge at [positionY - 3.5]. *)
Lemma renderer_position_is_box (plateScales : gmap string float)
  (socketGroup : SocketGroup.t) (plate : Plate.t) :
  let scale := orZero (plateScales !! Plate.id plate) in
  let pos := PlateCanvas.getSocketGroupPosition plateScales socketGroup plate in
  x pos = boxLeft (boxOf socketGroup) * scale
  /\ y pos = boxBottom (boxOf socketGroup) * scale
  /\ boxLeft (boxOf socketGroup) = SocketGroup.positionX socketGroup - 3.5
  /\ boxBottom (boxOf socketGroup) = SocketGroup.positionY socketGroup - 3.5.
Proof. repeat split. Qed.

(** C5 at a group anchored at (10, 10) on a plate of scale 1: the validator and
    the renderer put the bottom edge at [10 - 3.5 = 6.5], the position used for
    the drag offset puts it at [10 + 3.5 = 13.5]. *)
Theorem drag_offset_bottom_edge :
  let plate := Plate.mk "p1" 100 60 in
  let A := SocketGroup.mk "A" "p1" 1 horizontal 10 10 in
  let scales : gmap string float := {["p1" := 1]} in
  boxBottom (boxOf A) = 6.5
  /\ y (PlateCanvas.getSocketGroupPosition scales A plate) = 6.5
  /\ x (PlateCanvas.getSocketGroupPosition scales A plate) = 6.5
  /\ x (getSocketGroupPosition scales A plate) = 6.5
  /\ y (getSocketGroupPosition scales A plate) = 13.5.
Proof. vm_compute. repeat split. Qed.

(** ** More on the order of binary64 numbers *)

Lemma SFltb_leb_trans (u v w : spec_float) :
  SFltb u v = true -> SFleb v w = true -> SFltb u w = true.
Proof.
  unfold SFltb, SFleb.
  destruct u as [su|su| |su mu eu], v as [sv|sv| |sv mv ev], w as [sw|sw| |sw mw ew];
    simpl; try discriminate; try reflexivity;
    try (destruct su; simpl; try discriminate; try reflexivity);
    try (destruct sv; simpl; try discriminate; try reflexivity);
    try (destruct sw; simpl; try discriminate; try reflexivity);
    intros H1 H2; cmp_cases; try discriminate; try reflexivity; try lia.
Qed.

Lemma SFleb_ltb_trans (u v w : spec_float) :
  SFleb u v = true -> SFltb v w = true -> SFltb u w = true.
Proof.
  unfold SFltb, SFleb.
  destruct u as [su|su| |su mu eu], v as [sv|sv| |sv mv ev], w as [sw|sw| |sw mw ew];
    simpl; try discriminate; try reflexivity;
    try (destruct su; simpl; try discriminate; try reflexivity);
    try (destruct sv; simpl; try discriminate; try reflexivity);
    try (destruct sw; simpl; try discriminate; try reflexivity);
    intros H1 H2; cmp_cases; try discriminate; try reflexivity; try lia.
Qed.

Lemma ltb_leb_trans (a b c : float) :
  (a <? b) = true -> (b <=? c) = true -> (a <? c) = true.
Proof. rewrite !ltb_spec, leb_spec. apply SFltb_leb_trans. Qed.

Lemma leb_ltb_trans (a b c : float) :
  (a <=? b) = true -> (b <? c) = true -> (a <? c) = true.
Proof. rewrite !ltb_spec, leb_spec. apply SFleb_ltb_trans. Qed.

Lemma leb_infinity (a : float) : isNumber a = true -> (a <=? infinity) = true.
Proof.
  rewrite isNumber_Prim2SF, leb_spec.
  change (Prim2SF infinity) with (S754_infinity false).
  unfold SFleb. destruct (Prim2SF a) as [s|s| |s m e]; simpl; try congruence;
    destruct s; reflexivity.
Qed.

Lemma neg_infinity_leb (a : float) : isNumber a = true -> (neg_infinity <=? a) = true.
Proof.
  rewrite isNumber_Prim2SF, leb_spec.
  change (Prim2SF neg_infinity) with (S754_infinity true).
  unfold SFleb. destruct (Prim2SF a) as [s|s| |s m e]; simpl; try congruence;
    destruct s; reflexivity.
Qed.

(** ** Math.min and Math.max *)

Lemma isNumber_is_nan (a : float) : isNumber a = true <-> is_nan a = false.
Proof. unfold isNumber. apply negb_true_iff. Qed.

Lemma bounded_below_nan (c : float) : bounded_below c nan.
Proof. split; [apply ltb_nan_l | discriminate]. Qed.

Lemma bounded_below_refl (c : float) : isNumber c = true -> bounded_below c c.
Proof. intros Hc. split; [apply ltb_irrefl | intros _; now apply leb_refl]. Qed.

Lemma Math_min_from_isNumber (args : list float) (lowest : float) :
  isNumber lowest = true -> Forall (fun a => isNumber a = true) args ->
  isNumber (Math_min_from lowest args) = true.
Proof.
  intros Hl Hargs. revert lowest Hl.
  induction Hargs as [|number rest Hn _ IH]; intros lowest Hl; simpl; [exact Hl|].
  rewrite (proj1 (isNumber_is_nan _) Hn).
  destruct (isNegativeZero number && isPositiveZero lowest); [now apply IH|].
  destruct (number <? lowest); now apply IH.
Qed.

Lemma Math_max_from_isNumber (args : list float) (highest : float) :
  isNumber highest = true -> Forall (fun a => isNumber a = true) args ->
  isNumber (Math_max_from highest args) = true.
Proof.
  intros Hl Hargs. revert highest Hl.
  induction Hargs as [|number rest Hn _ IH]; intros highest Hl; simpl; [exact Hl|].
  rewrite (proj1 (isNumber_is_nan _) Hn).
  destruct (isPositiveZero number && isNegativeZero highest); [now apply IH|].
  destruct (gtb number highest); now apply IH.
Qed.

(** A NaN among the arguments makes the result NaN. *)
Lemma Math_min_from_nan (args : list float) (lowest a : float) :
  In a args -> is_nan a = true -> Math_min_from lowest args = nan.
Proof.
  intros Hin Ha. revert lowest.
  induction args as [|number rest IH]; intros lowest; simpl in *; [tauto|].
  destruct (is_nan number) eqn:En; [reflexivity|].
  destruct Hin as [-> | Hin]; [congruence|].
  destruct (isNegativeZero number && isPositiveZero lowest); [now apply IH|].
  destruct (number <? lowest); now apply IH.
Qed.

Lemma Math_max_from_nan (args : list float) (highest a : float) :
  In a args -> is_nan a = true -> Math_max_from highest args = nan.
Proof.
  intros Hin Ha. revert highest.
  induction args as [|number rest IH]; intros highest; simpl in *; [tauto|].
  destruct (is_nan number) eqn:En; [reflexivity|].
  destruct Hin as [-> | Hin]; [congruence|].
  destruct (isPositiveZero number && isNegativeZero highest); [now apply IH|].
  destruct (gtb number highest); now apply IH.
Qed.

(** [Math.min] of values that are all at least [lo] is at least [lo]. *)
Lemma Math_min_from_lower (lo : float) (args : list float) (lowest : float) :
  (lo <=? lowest) = true ->
  Forall (fun a => isNumber a = true -> (lo <=? a) = true) args ->
  bounded_below lo (Math_min_from lowest args).
Proof.
  intros Hl Hargs. revert lowest Hl.
  induction Hargs as [|number rest Hn _ IH]; intros lowest Hl; simpl.
  - split; [now apply leb_not_ltb | intros _; exact Hl].
  - destruct (is_nan number) eqn:En; [apply bounded_below_nan|].
    assert (Hlo : (lo <=? number) = true) by (apply Hn; now apply isNumber_is_nan).
    destruct (isNegativeZero number && isPositiveZero lowest); [now apply IH|].
    destruct (number <? lowest); now apply IH.
Qed.

(** [Math.max] is never below its last argument. *)
Lemma Math_max_from_last (last : float) (args : list float) (highest : float) :
  isNumber last = true ->
  bounded_below last (Math_max_from highest (args ++ [last])).
Proof.
  intros Hlast. revert highest.
  induction args as [|number rest IH]; intros highest; simpl.
  - rewrite (proj1 (isNumber_is_nan _) Hlast).
    destruct (isPositiveZero last && isNegativeZero highest);
      [now apply bounded_below_refl|].
    unfold gtb. destruct (highest <? last) eqn:E; [now apply bounded_below_refl|].
    split; [exact E|]. intros Hh. now apply not_ltb_leb.
  - destruct (is_nan number); [apply bounded_below_nan|].
    destruct (isPositiveZero number && isNegativeZero highest); [apply IH|].
    destruct (gtb number highest); apply IH.
Qed.

Lemma clamp_number (value min max : float) :
  (min <=? max) = true -> isNumber value = true ->
  isNumber (clamp value min max) = true
  /\ (min <=? clamp value min max) = true
  /\ (clamp value min max <=? max) = true.
Proof.
  intros Hmm Hv. destruct (leb_isNumber _ _ Hmm) as [Hmin Hmax].
  unfold clamp.
  set (m := Math_max [value; min]).
  assert (Nm : isNumber m = true).
  { apply Math_max_from_isNumber; [reflexivity|]. repeat constructor; assumption. }
  assert (Hm : (min <=? m) = true).
  { destruct (Math_max_from_last min [value] neg_infinity Hmin) as [_ H]. now apply H. }
  assert (Nr : isNumber (Math_min [m; max]) = true).
  { apply Math_min_from_isNumber; [reflexivity|]. repeat constructor; assumption. }
  split; [exact Nr|]. split.
  - destruct (Math_min_from_lower min [m; max] infinity) as [_ H].
    + now apply leb_infinity.
    + repeat constructor; intros _; assumption.
    + now apply H.
  - destruct (Math_min_from_last max [m] infinity Hmax) as [_ H]. now apply H.
Qed.

(** clamp (lib/utils.ts): a number is brought into [[min, max]]; NaN is not. *)
Theorem clamp_range (value min max : float) :
  (min <=? max) = true ->
  (isNumber value = true ->
     isNumber (clamp value min max) = true
     /\ (min <=? clamp value min max) = true
     /\ (clamp value min max <=? max) = true)
  /\ (is_nan value = true -> clamp value min max = nan).
Proof.
  intros Hmm. split.
  - now apply clamp_number.
  - intros Hv. unfold clamp, Math_max.
    rewrite (Math_max_from_nan [value; min] neg_infinity value); [reflexivity | now left | exact Hv].
Qed.

Lemma clamp_range_witness :
  clamp 500 20 300 = 300 /\ clamp 5 20 300 = 20 /\ clamp 151.5 20 300 = 151.5
  /\ (20 <=? clamp 500 20 300) = true.
Proof.
  destruct (clamp_range 500 20 300 eq_refl) as [H _].
  destruct (H eq_refl) as (_ & Hlo & _).
  split; [reflexivity | split; [reflexivity | split; [reflexivity | exact Hlo]]].
Defined.

(** A value within the bounds is returned unchanged. *)
Lemma clamp_in_range (value min max : float) :
  (neg_infinity <? min) = true -> (max <? infinity) = true ->
  is_zero min = false -> is_zero max = false ->
  (min <=? value) = true -> (value <=? max) = true ->
  clamp value min max = value.
Proof.
  intros Hmin Hmax Zmin Zmax Hlo Hhi.
  destruct (leb_isNumber _ _ Hlo) as [Nmin Nv].
  destruct (leb_isNumber _ _ Hhi) as [_ Nmax].
  apply isNumber_is_nan in Nmin, Nv, Nmax.
  unfold clamp, Math_max, Math_min. simpl.
  rewrite Nv, Nmin.
  change (isNegativeZero neg_infinity) with false. rewrite andb_false_r.
  unfold gtb. rewrite (ltb_leb_trans _ _ _ Hmin Hlo).
  assert (Pmin : isPositiveZero min = false) by (unfold isPositiveZero; now rewrite Zmin).
  rewrite Pmin. simpl. rewrite (leb_not_ltb _ _ Hlo).
  rewrite Nv, Nmax.
  change (isPositiveZero infinity) with false. rewrite andb_false_r.
  rewrite (leb_ltb_trans _ _ _ Hhi Hmax).
  assert (Pmax : isNegativeZero max = false) by (unfold isNegativeZero; now rewrite Zmax).
  rewrite Pmax. simpl. now rewrite (leb_not_ltb _ _ Hhi).
Qed.

(** ** Plate handlers *)

(** updatePlate with both dimensions: the plates keep their ids and order;
    every plate of the given id ends within 20..300 by 30..128 when the
    inputs are numbers, with an input in range stored as it is; the other
    plates are untouched. *)
Theorem updatePlate_resizes (plateId : string) (w h : float) (s : State) :
  isNumber w = true -> isNumber h = true ->
  let s' := updatePlate plateId (Some w) (Some h) s in
  map Plate.id (plates s') = map Plate.id (plates s)
  /\ (forall p, In p (plates s') -> Plate.id p = plateId ->
        Plate.width p = clamp w 20 300 /\ Plate.height p = clamp h 30 128
        /\ (20 <=? Plate.width p) = true /\ (Plate.width p <=? 300) = true
        /\ (30 <=? Plate.height p) = true /\ (Plate.height p <=? 128) = true)
  /\ ((20 <=? w) = true -> (w <=? 300) = true -> clamp w 20 300 = w)
  /\ ((30 <=? h) = true -> (h <=? 128) = true -> clamp h 30 128 = h)
  /\ (forall p, Plate.id p <> plateId -> In p (plates s') <-> In p (plates s)).
Proof.
  intros Nw Nh s'.
  assert (Epl : plates s' =
                map (fun plate =>
                       if String.eqb (Plate.id plate) plateId
                       then Plate.mk (Plate.id plate) (clamp w 20 300) (clamp h 30 128)
                       else plate) (plates s)) by reflexivity.
  rewrite Epl. clear Epl s'.
  split; [|split; [|split; [|split]]].
  - rewrite map_map. apply map_ext. intros p. now destruct (String.eqb _ _).
  - intros p Hin Hid. apply in_map_iff in Hin as (q & <- & _).
    destruct (String.eqb (Plate.id q) plateId) eqn:E.
    + destruct (clamp_number w 20 300 eq_refl Nw) as (_ & ? & ?).
      destruct (clamp_number h 30 128 eq_refl Nh) as (_ & ? & ?).
      simpl. repeat split; assumption.
    + apply String.eqb_neq in E. contradiction.
  - intros. now apply clamp_in_range.
  - intros. now apply clamp_in_range.
  - intros p Hid. rewrite in_map_iff. split.
    + intros (q & <- & Hin). destruct (String.eqb (Plate.id q) plateId) eqn:E; [|exact Hin].
      apply String.eqb_eq in E. simpl in Hid. contradiction.
    + intros Hin. exists p. split; [|exact Hin].
      apply String.eqb_neq in Hid. now rewrite Hid.
Qed.

Lemma updatePlate_resizes_witness :
  let s := mkState [Plate.mk "1" 151.5 36.8; Plate.mk "2" 200 100] [] None "" "" None
             {| width := 0; height := 0 |} ∅ "" 0 false [] in
  plates (updatePlate "1" (Some 500) (Some 50) s)
  = [Plate.mk "1" 300 50; Plate.mk "2" 200 100]
  /\ map Plate.id (plates (updatePlate "1" (Some 500) (Some 50) s)) = ["1"; "2"].
Proof.
  intros s.
  destruct (updatePlate_resizes "1" 500 50 s eq_refl eq_refl) as (Hids & _).
  split; [reflexivity | exact Hids].
Defined.

(** updatePlate removes the socket groups of the resized plate and only those;
    called without a dimension it changes nothing. *)
Theorem updatePlate_removes_sockets (plateId : string) (width height : option float)
  (s : State) :
  (forall g, In g (socketGroups (updatePlate plateId width height s)) <->
             In g (socketGroups s)
             /\ (SocketGroup.plateId g = plateId -> width = None /\ height = None))
  /\ updatePlate plateId None None s = s.
Proof.
  split.
  - intros g. unfold updatePlate.
    destruct width as [w|], height as [h|]; simpl;
      rewrite ?filter_In, ?negb_true_iff, ?String.eqb_neq;
      split; try (intros [Hin Hne]; split; [exact Hin | intros E; congruence]);
      try (intros [Hin H]; split; [exact Hin | intros E; destruct (H E); congruence]);
      try (intros Hin; split; [exact Hin | tauto]); tauto.
  - unfold updatePlate, setPlates. destruct s as [ps]. simpl. f_equal.
    rewrite <- (map_id ps) at 2. apply map_ext.
    intros [i pw ph]. simpl. now destruct (String.eqb i plateId).
Qed.

(** deletePlate *)
Lemma filter_other_nonempty (plateId : string) (ps : list Plate.t) :
  NoDup (map Plate.id ps) -> (1 < length ps)%nat ->
  List.filter (fun p => negb (String.eqb (Plate.id p) plateId)) ps <> [].
Proof.
  destruct ps as [|p1 [|p2 rest]]; simpl; try lia.
  intros Hnd _.
  apply NoDup_cons in Hnd as [Hnotin _].
  destruct (String.eqb (Plate.id p1) plateId) eqn:E1; simpl; [|discriminate].
  destruct (String.eqb (Plate.id p2) plateId) eqn:E2; simpl; [|discriminate].
  apply String.eqb_eq in E1, E2. exfalso. apply Hnotin. rewrite E1, <- E2. now left.
Qed.

(** deletePlate never empties a collection of plates with distinct ids: with a
    single plate nothing is removed; with more, the plate of the given id and
    its socket groups go, and nothing else. *)
Theorem deletePlate_keeps_a_plate (toFixed1 numberToString : float -> string)
  (plateId : string) (s : State) (f : Form.t) :
  NoDup (map Plate.id (plates s)) -> plates s <> [] ->
  let s' := fst (deletePlate toFixed1 numberToString plateId (s, f)) in
  plates s' <> []
  /\ ((length (plates s) <= 1)%nat ->
      plates s' = plates s /\ socketGroups s' = socketGroups s)
  /\ ((1 < length (plates s))%nat ->
      (forall p, In p (plates s') <-> In p (plates s) /\ Plate.id p <> plateId)
      /\ (forall g, In g (socketGroups s') <->
                    In g (socketGroups s) /\ SocketGroup.plateId g <> plateId)).
Proof.
  intros Hnd Hne s'. subst s'. unfold deletePlate.
  destruct (Nat.ltb_spec 1 (length (plates s))) as [Hlt|Hle].
  - destruct (find _ (plates s)); simpl;
      (split; [now apply filter_other_nonempty|]);
      (split; [lia|]); intros _;
      (split; intros x; rewrite filter_In, negb_true_iff, String.eqb_neq; reflexivity).
  - simpl. split; [exact Hne|]. split; [tauto | lia].
Qed.

Lemma deletePlate_keeps_a_plate_witness :
  let s := mkState [Plate.mk "1" 151.5 36.8; Plate.mk "2" 200 100]
             [SocketGroup.mk "g" "2" 1 vertical 10 10] None "" "" None
             {| width := 0; height := 0 |} ∅ "" 0 false [] in
  let f := Form.mk 1 vertical "3" "3" true [] in
  let s1 := fst (deletePlate (fun _ => "n") (fun _ => "n") "2" (s, f)) in
  let s2 := fst (deletePlate (fun _ => "n") (fun _ => "n") "1" (s1, f)) in
  plates s1 = [Plate.mk "1" 151.5 36.8] /\ socketGroups s1 = []
  /\ plates s2 = plates s1 /\ plates s2 <> [].
Proof.
  intros s f s1 s2.
  assert (Hnd : NoDup (map Plate.id (plates s1))) by (change (NoDup ["1"]); apply NoDup_singleton).
  destruct (deletePlate_keeps_a_plate (fun _ => "n") (fun _ => "n") "1" s1 f Hnd
              ltac:(discriminate)) as (Hne & Hsame & _).
  split; [reflexivity|]. split; [reflexivity|].
  split; [apply Hsame; simpl; lia | exact Hne].
Defined.

(** ** handleConfirmSocketGroup *)

Section ConfirmProperties.

Variable parseFloat : string -> float.
Variable toFixed1 : float -> string.
Variable numberToString : float -> string.
Variable render : ErrorMessage -> string.

Lemma handleConfirmSocketGroup_cases (now : string) (s : State) (f : Form.t) :
  let r := handleConfirmSocketGroup parseFloat toFixed1 numberToString render now (s, f) in
  let g := confirmedGroup parseFloat now s f in
  plates (fst r) = plates s
  /\ ((socketGroups (fst r) = socketGroups s /\ errorMessage (fst r) <> EmptyString
       /\ snd r = f)
      \/ (exists plate,
            find (fun p => String.eqb (Plate.id p) (selectedPlate s)) (plates s) = Some plate
            /\ isPlateLargeEnoughForSockets plate = true
            /\ ValidatedPosition.valid
                 (validateSocketPosition g (SocketGroup.positionX g) (SocketGroup.positionY g)
                    plate (socketGroups s)) = true
            /\ socketGroups (fst r) = committed s g
            /\ errorMessage (fst r) = EmptyString
            /\ selectedSocketGroup (fst r) = None)).
Proof.
  cbv zeta. unfold handleConfirmSocketGroup.
  destruct (String.eqb (selectedPlate s) EmptyString);
    [split; [reflexivity | left; repeat split; discriminate]|].
  destruct (find _ (plates s)) as [plate|] eqn:Ef;
    [|split; [reflexivity | left; repeat split; discriminate]].
  destruct (isPlateLargeEnoughForSockets plate) eqn:El; simpl negb; cbv iota;
    [|split; [reflexivity | left; repeat split; discriminate]].
  fold (confirmedGroup parseFloat now s f).
  change (parseFloat (Form.positionX f))
    with (SocketGroup.positionX (confirmedGroup parseFloat now s f)).
  change (parseFloat (Form.positionY f))
    with (SocketGroup.positionY (confirmedGroup parseFloat now s f)).
  destruct (ValidatedPosition.valid _) eqn:Ev; simpl negb; cbv iota.
  - split; [unfold committed; now destruct (selectedSocketGroup s)|].
    right. exists plate. unfold committed.
    repeat split; try assumption; now destruct (selectedSocketGroup s).
  - split; [reflexivity|]. left. repeat split.
    simpl. unfold orString.
    destruct (option_map render _) as [m|]; [|discriminate].
    destruct (String.eqb m EmptyString) eqn:Em; [discriminate|].
    now apply String.eqb_neq in Em.
Qed.

End ConfirmProperties.

(** ** Referential integrity *)

Lemma wellReferenced_sub (s s' : State) :
  (forall g, In g (socketGroups s') ->
     exists g0, In g0 (socketGroups s) /\ SocketGroup.plateId g0 = SocketGroup.plateId g) ->
  (forall p, In p (plates s) -> exists p', In p' (plates s') /\ Plate.id p' = Plate.id p) ->
  wellReferenced s -> wellReferenced s'.
Proof.
  intros Hg Hp Hs g Hin.
  destruct (Hg g Hin) as (g0 & Hin0 & <-).
  destruct (Hs g0 Hin0) as (p & Hinp & <-).
  exact (Hp p Hinp).
Qed.

Lemma handleSocketMouseMove_groups (render : ErrorMessage -> string) (s : State)
  (e : MouseEvent) (rect : option DOMRect.t) :
  let s' := handleSocketMouseMove render s e rect in
  plates s' = plates s
  /\ (socketGroups s' = socketGroups s
      \/ exists socketGroup plate plateX plateY,
           find (fun sg => match draggedId s with
                           | Some i => String.eqb (SocketGroup.id sg) i
                           | None => false
                           end) (socketGroups s) = Some socketGroup
           /\ find (fun p => String.eqb (Plate.id p) (SocketGroup.plateId socketGroup))
                   (plates s) = Some plate
           /\ ValidatedPosition.valid
                (validateSocketPosition socketGroup plateX plateY plate (socketGroups s))
              = true
           /\ socketGroups s' = map (moveTo socketGroup plateX plateY) (socketGroups s)).
Proof.
  cbv zeta. unfold handleSocketMouseMove, dragTarget, draggedId.
  destruct (dragState s) as [d|]; [|split; [reflexivity | now left]].
  destruct rect as [rect|]; [|split; [reflexivity | now left]].
  destruct (find _ (socketGroups s)) as [socketGroup|] eqn:Eg;
    [|split; [reflexivity | now left]].
  destruct (find _ (plates s)) as [plate|] eqn:Ep; [|split; [reflexivity | now left]].
  cbv zeta.
  destruct (ValidatedPosition.valid _) eqn:Ev.
  - split; [reflexivity|]. right.
    eexists socketGroup, plate, _, _.
    split; [reflexivity|]. split; [exact Ep|]. split; [exact Ev | reflexivity].
  - split; [now destruct (negb _) | left; now destruct (negb _)].
Qed.

Section Integrity.

Variable parseFloat : string -> float.
Variable toFixed1 : float -> string.
Variable numberToString : float -> string.
Variable render : ErrorMessage -> string.

(** No handler call, and no run of the scaling effect, creates a dangling
    reference: when every socket group refers to a plate of the collection in
    the state a call is made in, the same holds in the state the call sets.
    This is about the call alone; the effects that run after the next render
    are not part of it. *)
Theorem handler_call_keeps_references (sf : State * Form.t) (a : Call) :
  wellReferenced (fst sf) ->
  wellReferenced (fst (handlerCall parseFloat toFixed1 numberToString render sf a)).
Proof.
  destruct sf as [s f]. simpl fst. intros Hs.
  destruct a as [plateId w h|now|plateId|now|groupId|groupId|e g rect|e rect| |];
    cbn [handlerCall fst snd].
  - (* updatePlate *)
    apply (wellReferenced_sub s); [| |exact Hs].
    + intros g Hin. exists g. split; [|reflexivity].
      unfold updatePlate in Hin. destruct w, h; simpl in Hin;
        rewrite ?filter_In in Hin; tauto.
    + intros p Hin.
      set (fn := fun plate : Plate.t =>
                   if String.eqb (Plate.id plate) plateId
                   then Plate.mk (Plate.id plate)
                          (match w with Some w => clamp w 20 300 | None => Plate.width plate end)
                          (match h with Some h => clamp h 30 128 | None => Plate.height plate end)
                   else plate).
      assert (Epl : plates (updatePlate plateId w h s) = map fn (plates s))
        by (unfold updatePlate; destruct w, h; reflexivity).
      rewrite Epl. exists (fn p). split; [now apply in_map|].
      subst fn. simpl. now destruct (String.eqb _ _).
  - (* addPlate *)
    apply (wellReferenced_sub s); [| |exact Hs].
    + intros g Hin. now exists g.
    + intros p Hin. exists p. split; [|reflexivity]. simpl. apply in_or_app. now left.
  - (* deletePlate *)
    unfold deletePlate. destruct (Nat.ltb 1 (length (plates s))); [|exact Hs].
    intros g Hin.
    assert (Hin' : In g (List.filter
                           (fun sg => negb (String.eqb (SocketGroup.plateId sg) plateId))
                           (socketGroups s))) by (destruct (find _ _); exact Hin).
    apply filter_In in Hin' as [Hing Hne].
    destruct (Hs g Hing) as (p & Hinp & Hid). exists p. split; [|exact Hid].
    assert (Hgoal : In p (List.filter (fun p => negb (String.eqb (Plate.id p) plateId))
                            (plates s))).
    { apply filter_In. split; [exact Hinp|]. now rewrite Hid. }
    destruct (find _ _); exact Hgoal.
  - (* handleConfirmSocketGroup *)
    destruct (handleConfirmSocketGroup_cases parseFloat toFixed1 numberToString render now s f)
      as [Hpl [(Hsame & _) | (plate & Hfind & _ & _ & Hcom & _)]].
    + intros g Hin. rewrite Hsame in Hin. rewrite Hpl. now apply Hs.
    + apply find_some in Hfind as [Hinp Hid]. apply String.eqb_eq in Hid.
      intros g Hin. rewrite Hcom in Hin. rewrite Hpl. unfold committed in Hin.
      assert (Hcase : In g (socketGroups s) \/ g = confirmedGroup parseFloat now s f).
      { destruct (selectedSocketGroup s) as [sel|].
        - apply in_map_iff in Hin as (g0 & Hg0 & Hin0).
          destruct (String.eqb _ _); [right; now symmetry | left; now subst].
        - apply in_app_or in Hin as [Hin | [<- | []]]; [now left | now right]. }
      destruct Hcase as [Hold | ->]; [now apply Hs|].
      exists plate. split; [exact Hinp | exact Hid].
  - (* handleDeleteSocketGroup *)
    apply (wellReferenced_sub s); [| |exact Hs].
    + intros g Hin. exists g. split; [|reflexivity].
      unfold handleDeleteSocketGroup in Hin.
      destruct (selectedSocketGroup s) as [sel|]; [destruct (String.eqb _ _)|];
        simpl in Hin; apply filter_In in Hin; tauto.
    + intros p Hin. exists p. split; [|reflexivity].
      unfold handleDeleteSocketGroup.
      destruct (selectedSocketGroup s) as [sel|]; [destruct (String.eqb _ _)|]; exact Hin.
  - (* handleSocketGroupView *)
    unfold handleSocketGroupView. now destruct (find _ _).
  - (* handleSocketMouseDown *)
    unfold handleSocketMouseDown. destruct (find _ _); [destruct rect|]; exact Hs.
  - (* handleSocketMouseMove *)
    destruct (handleSocketMouseMove_groups render s e rect)
      as [Hpl [Hsame | (g0 & pl & px & py & Hfind0 & _ & _ & Hmv)]].
    + intros g Hin. rewrite Hsame in Hin. rewrite Hpl. now apply Hs.
    + intros g Hin. rewrite Hmv in Hin. rewrite Hpl.
      apply in_map_iff in Hin as (g1 & <- & Hin1). unfold moveTo.
      destruct (String.eqb (SocketGroup.id g1) (SocketGroup.id g0)); [|now apply Hs].
      simpl. apply find_some in Hfind0 as [Hin0 _]. now apply Hs.
  - (* handleSocketMouseUp *)
    unfold handleSocketMouseUp. now destruct (dragState s).
  - (* scalingEffect *)
    unfold scalingEffect.
    destruct (_ || _); [exact Hs|]. cbv zeta.
    destruct (_ && _); [destruct (_ <? _)|]; exact Hs.
Qed.

End Integrity.

(** Deleting plate 2 of the two default plates, which carries a socket group:
    the call removes the plate together with its group. *)
Lemma handler_call_keeps_references_witness :
  let s := mkState [Plate.mk "1" 151.5 36.8; Plate.mk "2" 200 100]
             [SocketGroup.mk "g1" "2" 1 vertical 10 10] None "2" "" None
             {| width := 1000; height := 600 |} ∅ "" 0 false [] in
  let f := Form.mk 1 vertical "10" "10" true [] in
  let s' := fst (handlerCall (fun _ => 10) (fun _ => "n") (fun _ => "n") (fun _ => "e")
                   (s, f) (DeletePlate "2")) in
  wellReferenced s
  /\ plates s' = [Plate.mk "1" 151.5 36.8]
  /\ socketGroups s' = []
  /\ wellReferenced s'.
Proof.
  intros s f s'.
  assert (Hs : wellReferenced s).
  { intros g [<- | []]. exists (Plate.mk "2" 200 100). simpl. tauto. }
  split; [exact Hs|]. split; [reflexivity|]. split; [reflexivity|].
  exact (handler_call_keeps_references (fun _ => 10) (fun _ => "n") (fun _ => "n")
           (fun _ => "e") (s, f) (DeletePlate "2") Hs).
Defined.

(** ** More on the validator *)

Lemma validateSocketPosition_valid (socketGroup : SocketGroup.t)
  (positionX positionY : float) (plate : Plate.t)
  (allSocketGroups : list SocketGroup.t) :
  let b := groupBox (SocketGroup.count socketGroup) (SocketGroup.direction socketGroup)
             positionX positionY in
  let r := validateSocketPosition socketGroup positionX positionY plate allSocketGroups in
  (ValidatedPosition.valid r = true <->
   (boxLeft b <? MIN_EDGE_DISTANCE) = false
   /\ (boxBottom b <? MIN_EDGE_DISTANCE) = false
   /\ gtb (boxRight b) (Plate.width plate - MIN_EDGE_DISTANCE) = false
   /\ gtb (boxTop b) (Plate.height plate - MIN_EDGE_DISTANCE) = false
   /\ forall other, In other allSocketGroups -> sibling socketGroup other ->
        (rectDistance b (boxOf other) <? MIN_GROUP_DISTANCE) = false)
  /\ (ValidatedPosition.valid r = true <-> ValidatedPosition.error r = None)
  /\ (ValidatedPosition.valid r = true ->
      r = ValidatedPosition.mk true None positionX positionY).
Proof.
  intros b r. subst r. rewrite validateSocketPosition_cases. cbv zeta. fold b.
  pose proof (groupLoop_None socketGroup positionX positionY
                (width (calculateSocketGroupDimensions (SocketGroup.count socketGroup)
                          (SocketGroup.direction socketGroup)))
                (height (calculateSocketGroupDimensions (SocketGroup.count socketGroup)
                           (SocketGroup.direction socketGroup)))
                allSocketGroups) as Hloop.
  destruct (boxLeft b <? MIN_EDGE_DISTANCE);
    [simpl; repeat split; intros; try discriminate; intuition discriminate|].
  destruct (boxBottom b <? MIN_EDGE_DISTANCE);
    [simpl; repeat split; intros; try discriminate; intuition discriminate|].
  destruct (gtb (boxRight b) _);
    [simpl; repeat split; intros; try discriminate; intuition discriminate|].
  destruct (gtb (boxTop b) _);
    [simpl; repeat split; intros; try discriminate; intuition discriminate|].
  destruct (groupLoop _ _ _ _ _ _) as [d|]; simpl.
  - repeat split; intros; try discriminate.
    destruct H as (_ & _ & _ & _ & H). apply Hloop in H. discriminate.
  - repeat split; intros; try reflexivity.
    apply (proj1 Hloop); [reflexivity | assumption | assumption].
Qed.

(** [validateSocketPosition] accepts exactly when none of the four edge tests
    fires and no sibling of the list is nearer than 4 cm; it reports an error
    exactly when it rejects. *)
Theorem accepts_iff_all_checks_pass (socketGroup : SocketGroup.t)
  (positionX positionY : float) (plate : Plate.t)
  (allSocketGroups : list SocketGroup.t) :
  let b := groupBox (SocketGroup.count socketGroup) (SocketGroup.direction socketGroup)
             positionX positionY in
  let r := validateSocketPosition socketGroup positionX positionY plate allSocketGroups in
  (ValidatedPosition.valid r = true <->
   (boxLeft b <? 3) = false
   /\ (boxBottom b <? 3) = false
   /\ gtb (boxRight b) (Plate.width plate - 3) = false
   /\ gtb (boxTop b) (Plate.height plate - 3) = false
   /\ forall other, In other allSocketGroups -> sibling socketGroup other ->
        (rectDistance b (boxOf other) <? 4) = false)
  /\ (ValidatedPosition.valid r = true <-> ValidatedPosition.error r = None).
Proof.
  intros b r.
  destruct (validateSocketPosition_valid socketGroup positionX positionY plate allSocketGroups)
    as (H1 & H2 & _).
  split; [exact H1 | exact H2].
Qed.

Lemma overlapping_distance (r1 r2 : Rect) :
  overlapping r1 r2 = true -> rectDistance r1 r2 = 0.
Proof.
  unfold overlapping, rectDistance.
  rewrite !andb_true_iff, !negb_true_iff. intros [[[-> ->] ->] ->]. reflexivity.
Qed.

(** A candidate whose box overlaps the box of a sibling, or lies within 4 cm of
    it, is never accepted, wherever the sibling stands in the list. *)
Theorem never_accepts_near_sibling (socketGroup other : SocketGroup.t)
  (positionX positionY : float) (plate : Plate.t)
  (allSocketGroups : list SocketGroup.t) :
  In other allSocketGroups -> sibling socketGroup other ->
  let b := groupBox (SocketGroup.count socketGroup) (SocketGroup.direction socketGroup)
             positionX positionY in
  overlapping b (boxOf other) = true
  \/ (rectDistance b (boxOf other) <? 4) = true ->
  ValidatedPosition.valid
    (validateSocketPosition socketGroup positionX positionY plate allSocketGroups) = false.
Proof.
  intros Hin Hsib b Hnear.
  assert (Hd : (rectDistance b (boxOf other) <? 4) = true).
  { destruct Hnear as [Ho | Hd]; [|exact Hd]. now rewrite overlapping_distance. }
  destruct (ValidatedPosition.valid _) eqn:Ev; [|reflexivity].
  apply validateSocketPosition_valid in Ev as (_ & _ & _ & _ & H).
  specialize (H other Hin Hsib). fold b in H.
  change MIN_GROUP_DISTANCE with 4 in H. congruence.
Qed.

Lemma never_accepts_near_sibling_witness :
  let plate := Plate.mk "plate-1" 100 60 in
  let A := SocketGroup.mk "A" "plate-1" 3 horizontal 10 10 in
  let B := SocketGroup.mk "B" "plate-1" 1 vertical 14 10 in
  let C := SocketGroup.mk "C" "plate-1" 1 vertical 60 40 in
  overlapping (groupBox 1 vertical 14 10) (boxOf A) = true
  /\ ValidatedPosition.valid (validateSocketPosition B 14 10 plate [C; B; A]) = false.
Proof.
  intros plate A B C. split; [reflexivity|].
  apply (never_accepts_near_sibling B A 14 10 plate [C; B; A]).
  - simpl. tauto.
  - split; [discriminate | reflexivity].
  - left. reflexivity.
Defined.

(** ** Symmetry of the distance *)

Lemma separated_both_impossible (l1 r1 l2 r2 : float) :
  (l1 <=? r1) = true -> (l2 <=? r2) = true ->
  (r1 <? l2) = true -> (r2 <? l1) = true -> False.
Proof.
  intros H1 H2 H12 H21.
  pose proof (leb_ltb_trans _ _ _ H1 H12) as Ha.
  pose proof (ltb_leb_trans _ _ _ Ha H2) as Hb.
  pose proof (ltb_leb_trans _ _ _ Hb (ltb_leb _ _ H21)) as Hc.
  rewrite ltb_irrefl in Hc. discriminate.
Qed.

(** The distance between two well-formed rectangles does not depend on which
    of the two is the candidate. *)
Theorem rectDistance_symmetric (r1 r2 : Rect) :
  wellFormed r1 -> wellFormed r2 -> rectDistance r1 r2 = rectDistance r2 r1.
Proof.
  intros [Hx1 Hy1] [Hx2 Hy2]. unfold rectDistance, gtb.
  assert (Hh : (if boxRight r1 <? boxLeft r2 then boxLeft r2 - boxRight r1
                else if boxRight r2 <? boxLeft r1 then boxLeft r1 - boxRight r2 else 0)
               = (if boxRight r2 <? boxLeft r1 then boxLeft r1 - boxRight r2
                  else if boxRight r1 <? boxLeft r2 then boxLeft r2 - boxRight r1 else 0)).
  { destruct (boxRight r1 <? boxLeft r2) eqn:E1, (boxRight r2 <? boxLeft r1) eqn:E2;
      try reflexivity.
    exfalso. exact (separated_both_impossible _ _ _ _ Hx1 Hx2 E1 E2). }
  assert (Hv : (if boxTop r2 <? boxBottom r1 then boxBottom r1 - boxTop r2
                else if boxTop r1 <? boxBottom r2 then boxBottom r2 - boxTop r1 else 0)
               = (if boxTop r1 <? boxBottom r2 then boxBottom r2 - boxTop r1
                  else if boxTop r2 <? boxBottom r1 then boxBottom r1 - boxTop r2 else 0)).
  { destruct (boxTop r2 <? boxBottom r1) eqn:E1, (boxTop r1 <? boxBottom r2) eqn:E2;
      try reflexivity.
    exfalso. exact (separated_both_impossible _ _ _ _ Hy2 Hy1 E1 E2). }
  now rewrite Hh, Hv.
Qed.

Lemma rectDistance_symmetric_witness :
  let A := SocketGroup.mk "A" "p" 3 horizontal 10 10 in
  let B := SocketGroup.mk "B" "p" 2 vertical 40 30 in
  rectDistance (boxOf A) (boxOf B) = rectDistance (boxOf B) (boxOf A)
  /\ (4 <? rectDistance (boxOf A) (boxOf B)) = true.
Proof.
  intros A B. split; [|reflexivity].
  apply rectDistance_symmetric; split; reflexivity.
Defined.

(** ** A committed position validates again *)

Lemma groupLoop_moved (socketGroup : SocketGroup.t) (plateX plateY x y gw gh : float)
  (allSocketGroups : list SocketGroup.t) :
  groupLoop (moveTo socketGroup plateX plateY socketGroup) x y gw gh
    (map (moveTo socketGroup plateX plateY) allSocketGroups)
  = groupLoop socketGroup x y gw gh allSocketGroups.
Proof.
  assert (Eid : SocketGroup.id (moveTo socketGroup plateX plateY socketGroup)
                = SocketGroup.id socketGroup)
    by (unfold moveTo; now rewrite String.eqb_refl).
  assert (Epl : SocketGroup.plateId (moveTo socketGroup plateX plateY socketGroup)
                = SocketGroup.plateId socketGroup)
    by (unfold moveTo; now rewrite String.eqb_refl).
  assert (Hsk : forall o, skipped (moveTo socketGroup plateX plateY socketGroup) o
                         = skipped socketGroup o)
    by (intros o; unfold skipped; now rewrite Eid, Epl).
  induction allSocketGroups as [|o rest IH]; simpl; [reflexivity|].
  rewrite Hsk, IH.
  destruct (String.eqb (SocketGroup.id o) (SocketGroup.id socketGroup)) eqn:E.
  - assert (Ho : skipped socketGroup o = true) by (unfold skipped; now rewrite E).
    assert (Hm : skipped socketGroup (moveTo socketGroup plateX plateY o) = true).
    { unfold skipped, moveTo. rewrite E. simpl. now rewrite String.eqb_refl. }
    now rewrite Ho, Hm.
  - assert (Hm : moveTo socketGroup plateX plateY o = o) by (unfold moveTo; now rewrite E).
    now rewrite Hm.
Qed.

Lemma find_moved (i : string) (socketGroup : SocketGroup.t) (plateX plateY : float)
  (l : list SocketGroup.t) :
  find (fun sg => String.eqb (SocketGroup.id sg) i) l = Some socketGroup ->
  find (fun sg => String.eqb (SocketGroup.id sg) i) (map (moveTo socketGroup plateX plateY) l)
  = Some (moveTo socketGroup plateX plateY socketGroup).
Proof.
  intros Hfind.
  pose proof (find_some _ _ Hfind) as [_ Hid]. apply String.eqb_eq in Hid.
  revert Hfind. unfold find.
  induction l as [|o rest IH]; simpl; [discriminate|].
  destruct (String.eqb (SocketGroup.id o) i) eqn:E.
  - intros [= ->].
    assert (Hm : SocketGroup.id (moveTo socketGroup plateX plateY socketGroup) = i)
      by (unfold moveTo; now rewrite String.eqb_refl).
    rewrite Hm, String.eqb_refl. reflexivity.
  - intros Hrest.
    assert (Hm : moveTo socketGroup plateX plateY o = o)
      by (unfold moveTo; now rewrite Hid, E).
    rewrite Hm, E. now apply IH.
Qed.

(** After a pointer-move step that moved the dragged group, validating that
    group at its stored anchor against the new collection accepts again. *)
Theorem committed_position_validates (render : ErrorMessage -> string) (s : State)
  (e : MouseEvent) (rect : option DOMRect.t) :
  let s' := handleSocketMouseMove render s e rect in
  socketGroups s' <> socketGroups s ->
  exists g plate,
    find (fun sg => match draggedId s with
                    | Some i => String.eqb (SocketGroup.id sg) i
                    | None => false
                    end) (socketGroups s') = Some g
    /\ find (fun p => String.eqb (Plate.id p) (SocketGroup.plateId g)) (plates s') = Some plate
    /\ validateSocketPosition g (SocketGroup.positionX g) (SocketGroup.positionY g) plate
         (socketGroups s')
       = ValidatedPosition.mk true None (SocketGroup.positionX g) (SocketGroup.positionY g).
Proof.
  intros s' Hchanged. subst s'.
  destruct (handleSocketMouseMove_groups render s e rect)
    as [Hpl [Hsame | (g0 & plate & px & py & Hfind & Hplate & Hvalid & Hmv)]];
    [contradiction|].
  exists (moveTo g0 px py g0), plate.
  rewrite Hpl, Hmv.
  assert (Eg : moveTo g0 px py g0
               = SocketGroup.mk (SocketGroup.id g0) (SocketGroup.plateId g0)
                   (SocketGroup.count g0) (SocketGroup.direction g0) px py)
    by (unfold moveTo; now rewrite String.eqb_refl).
  split; [|split].
  - destruct (draggedId s) as [i|].
    + now apply find_moved.
    + apply find_some in Hfind as [_ Hfalse]. discriminate.
  - rewrite Eg. simpl. exact Hplate.
  - apply (proj2 (proj2 (validateSocketPosition_valid _ _ _ plate _))).
    rewrite validateSocketPosition_cases in Hvalid |- *.
    cbv zeta in Hvalid |- *. rewrite groupLoop_moved, Eg.
    cbn [SocketGroup.count SocketGroup.direction SocketGroup.positionX
         SocketGroup.positionY].
    exact Hvalid.
Qed.

Lemma committed_position_validates_witness :
  let A := SocketGroup.mk "A" "p1" 1 horizontal 10 10 in
  let plate := Plate.mk "p1" 100 60 in
  let d := DragState.mk true (Some "A") {| x := -13; y := -33 |} None None None in
  let s := mkState [plate] [A] None "p1" "" (Some d) {| width := 800; height := 600 |}
             {["p1" := 2]} "" 0 false [] in
  let s' := handleSocketMouseMove (fun _ => "error") s {| clientX := 310; clientY := 300 |}
              (Some (DOMRect.mk 0 0 800 600)) in
  socketGroups s' = [SocketGroup.mk "A" "p1" 1 horizontal 15 10]
  /\ exists g plate',
       find (fun sg => String.eqb (SocketGroup.id sg) "A") (socketGroups s') = Some g
       /\ find (fun p => String.eqb (Plate.id p) (SocketGroup.plateId g)) (plates s')
          = Some plate'
       /\ validateSocketPosition g (SocketGroup.positionX g) (SocketGroup.positionY g) plate'
            (socketGroups s')
          = ValidatedPosition.mk true None (SocketGroup.positionX g) (SocketGroup.positionY g).
Proof.
  intros A plate d s s'. split; [reflexivity|].
  apply (committed_position_validates (fun _ => "error") s
           {| clientX := 310; clientY := 300 |} (Some (DOMRect.mk 0 0 800 600))).
  intros H.
  apply (f_equal (fun l => match l with
                           | g :: _ => SocketGroup.positionX g <? 12
                           | [] => false
                           end)) in H.
  vm_compute in H. discriminate H.
Defined.

(** ** What a pointer-move step leaves alone *)

Lemma unique_id (l : list SocketGroup.t) (g o : SocketGroup.t) :
  NoDup (map SocketGroup.id l) -> In g l -> In o l ->
  SocketGroup.id o = SocketGroup.id g -> o = g.
Proof.
  induction l as [|a rest IH]; simpl; [tauto|].
  intros Hnd Hg Ho Hid. apply NoDup_cons in Hnd as [Hnotin Hnd].
  destruct Hg as [-> | Hg], Ho as [-> | Ho]; auto.
  - exfalso. apply Hnotin. rewrite <- Hid. apply list_elem_of_In. now apply in_map.
  - exfalso. apply Hnotin. rewrite Hid. apply list_elem_of_In. now apply in_map.
Qed.

(** When the ids of the socket groups are distinct, a pointer-move step keeps
    the number and order of the groups and the id, plate, count and direction
    of each; only the group that is dragged can change its anchor.  Plates and
    scales are never touched. *)
Theorem drag_changes_only_the_anchor (render : ErrorMessage -> string) (s : State)
  (e : MouseEvent) (rect : option DOMRect.t) :
  NoDup (map SocketGroup.id (socketGroups s)) ->
  let s' := handleSocketMouseMove render s e rect in
  let fixed := fun g => (SocketGroup.id g, SocketGroup.plateId g,
                         SocketGroup.count g, SocketGroup.direction g) in
  map fixed (socketGroups s') = map fixed (socketGroups s)
  /\ plates s' = plates s
  /\ plateScales s' = plateScales s
  /\ (forall g, In g (socketGroups s) -> Some (SocketGroup.id g) <> draggedId s ->
        In g (socketGroups s')).
Proof.
  intros Hnd s' fixed. subst s'.
  assert (Hsc : plateScales (handleSocketMouseMove render s e rect) = plateScales s).
  { unfold handleSocketMouseMove. destruct (dragTarget s rect) as [[[[d r] g] p]|];
      [|reflexivity]. cbv zeta.
    destruct (ValidatedPosition.valid _); [reflexivity | now destruct (negb _)]. }
  destruct (handleSocketMouseMove_groups render s e rect)
    as [Hpl [Hsame | (g0 & plate & px & py & Hfind & _ & _ & Hmv)]].
  - rewrite Hsame. repeat split; try assumption. tauto.
  - rewrite Hmv. pose proof (find_some _ _ Hfind) as [Hin0 Hid0].
    split; [|split; [exact Hpl | split; [exact Hsc|]]].
    + rewrite map_map. apply map_ext_in. intros o Ho. unfold moveTo.
      destruct (String.eqb (SocketGroup.id o) (SocketGroup.id g0)) eqn:E; [|reflexivity].
      apply String.eqb_eq in E. now rewrite (unique_id _ _ _ Hnd Hin0 Ho E).
    + intros g Hin Hne. apply in_map_iff. exists g. split; [|exact Hin].
      unfold moveTo.
      destruct (String.eqb (SocketGroup.id g) (SocketGroup.id g0)) eqn:E; [|reflexivity].
      apply String.eqb_eq in E. exfalso. apply Hne.
      destruct (draggedId s) as [i|]; [|discriminate].
      apply String.eqb_eq in Hid0. congruence.
Qed.

Lemma drag_changes_only_the_anchor_witness :
  let A := SocketGroup.mk "A" "p1" 1 horizontal 10 10 in
  let B := SocketGroup.mk "B" "p1" 2 vertical 60 20 in
  let plate := Plate.mk "p1" 100 60 in
  let d := DragState.mk true (Some "A") {| x := -13; y := -33 |} None None None in
  let s := mkState [plate] [A; B] None "p1" "" (Some d) {| width := 800; height := 600 |}
             {["p1" := 2]} "" 0 false [] in
  let s' := handleSocketMouseMove (fun _ => "error") s {| clientX := 310; clientY := 300 |}
              (Some (DOMRect.mk 0 0 800 600)) in
  socketGroups s' = [SocketGroup.mk "A" "p1" 1 horizontal 15 10; B]
  /\ In B (socketGroups s').
Proof.
  intros A B plate d s s'. split; [reflexivity|].
  assert (Hnd : NoDup (map SocketGroup.id (socketGroups s))).
  { change (NoDup ["A"; "B"]). apply NoDup_cons. split; [|apply NoDup_singleton].
    intros H. apply list_elem_of_In in H. destruct H as [H | []]. discriminate H. }
  destruct (drag_changes_only_the_anchor (fun _ => "error") s
              {| clientX := 310; clientY := 300 |} (Some (DOMRect.mk 0 0 800 600)) Hnd)
    as (_ & _ & _ & H).
  apply (H B); [simpl; tauto | discriminate].
Defined.

(** ** Error notifications during a drag *)

(** A pointer-move step notifies at most one error, and only one whose text
    differs from the last one notified during this drag; the text is then
    remembered and shown as the error message.  A step that moves the group
    notifies nothing and forgets the remembered text. *)
Theorem drag_error_notified_once (render : ErrorMessage -> string) (s : State)
  (e : MouseEvent) (rect : option DOMRect.t) :
  let s' := handleSocketMouseMove render s e rect in
  (toasts s' = toasts s
   \/ exists m, toasts s' = m :: toasts s /\ m <> lastDragErrorToastRef s
                /\ lastDragErrorToastRef s' = m /\ errorMessage s' = m
                /\ socketGroups s' = socketGroups s)
  /\ (socketGroups s' <> socketGroups s ->
      toasts s' = toasts s /\ lastDragErrorToastRef s' = EmptyString
      /\ errorMessage s' = EmptyString).
Proof.
  cbv zeta. unfold handleSocketMouseMove.
  destruct (dragTarget s rect) as [[[[d r] g] p]|]; [|split; [now left | tauto]].
  cbv zeta. destruct (ValidatedPosition.valid _).
  - split; [now left | intros _; repeat split].
  - set (m := orString _ _).
    destruct (String.eqb (lastDragErrorToastRef (setErrorMessage m _)) m) eqn:E; simpl negb;
      cbv iota.
    + split; [now left | intros H; now contradiction H].
    + split; [|intros H; now contradiction H].
      right. exists m. apply String.eqb_neq in E. simpl in E.
      repeat split. congruence.
Qed.

(** ** The end of a drag *)

(** After the pointer is released, pointer moves change nothing. *)
Theorem no_move_after_mouse_up (render : ErrorMessage -> string) (s : State)
  (e : MouseEvent) (rect : option DOMRect.t) :
  dragState (handleSocketMouseUp s) = None
  /\ handleSocketMouseMove render (handleSocketMouseUp s) e rect = handleSocketMouseUp s
  /\ socketGroups (handleSocketMouseUp s) = socketGroups s.
Proof.
  unfold handleSocketMouseUp.
  destruct (dragState s) as [d|] eqn:Ed; simpl.
  - repeat split.
  - repeat split; try assumption.
    unfold handleSocketMouseMove, dragTarget. now rewrite Ed.
Qed.

(** ** Confirming a socket group *)

(** For numeric inputs the tests of the validator are the constraints. *)
Lemma accepted_constraints (socketGroup : SocketGroup.t) (positionX positionY : float)
  (plate : Plate.t) (allSocketGroups : list SocketGroup.t) :
  isNumber positionX = true -> isNumber positionY = true ->
  isNumber (Plate.width plate) = true -> isNumber (Plate.height plate) = true ->
  In (SocketGroup.count socketGroup) [1; 2; 3; 4; 5] ->
  let b := groupBox (SocketGroup.count socketGroup) (SocketGroup.direction socketGroup)
             positionX positionY in
  ValidatedPosition.valid
    (validateSocketPosition socketGroup positionX positionY plate allSocketGroups) = true ->
  geb (boxLeft b) 3 = true /\ geb (boxBottom b) 3 = true
  /\ (boxRight b <=? Plate.width plate - 3) = true
  /\ (boxTop b <=? Plate.height plate - 3) = true
  /\ forall other, In other allSocketGroups -> sibling socketGroup other ->
       geb (rectDistance b (boxOf other)) 4 = true.
Proof.
  intros Hx Hy Hw Hh Hcount b Hvalid.
  destruct (dimensions_finite _ (SocketGroup.direction socketGroup) Hcount) as [Fw Fh].
  assert (Fa : isFinite ANCHOR_OFFSET_CM) by exact I.
  assert (Fe : isFinite MIN_EDGE_DISTANCE) by exact I.
  assert (Nl : isNumber (boxLeft b) = true) by now apply sub_finite_isNumber.
  assert (Nb : isNumber (boxBottom b) = true) by now apply sub_finite_isNumber.
  assert (Nr : isNumber (boxRight b) = true) by now apply add_finite_isNumber.
  assert (Nt : isNumber (boxTop b) = true) by now apply add_finite_isNumber.
  assert (Nw : isNumber (Plate.width plate - MIN_EDGE_DISTANCE) = true)
    by now apply sub_finite_isNumber.
  assert (Nh : isNumber (Plate.height plate - MIN_EDGE_DISTANCE) = true)
    by now apply sub_finite_isNumber.
  apply validateSocketPosition_valid in Hvalid as (El & Eb & Er & Et & Eg).
  fold b in El, Eb, Er, Et, Eg. unfold geb, gtb in *.
  repeat split; try (apply not_ltb_leb; assumption || reflexivity).
  intros other Hin Hsib.
  apply not_ltb_leb; [apply rectDistance_isNumber | reflexivity | now apply Eg].
Qed.

Section ConfirmTheorems.

Variable parseFloat : string -> float.
Variable toFixed1 : float -> string.
Variable numberToString : float -> string.
Variable render : ErrorMessage -> string.

(** handleConfirmSocketGroup changes the socket groups only when a plate is
    selected that exists and measures at least 40 x 40 and the validator accepts
    the anchor read from the form; the group is then appended, or replaces the
    selected one, and the selection and the error message are cleared.  In
    every other case the groups and the form are left as they were and an error
    message is set.  The plates are never changed. *)
Theorem confirm_commits_only_valid (now : string) (s : State) (f : Form.t) :
  let r := handleConfirmSocketGroup parseFloat toFixed1 numberToString render now (s, f) in
  let g := confirmedGroup parseFloat now s f in
  plates (fst r) = plates s
  /\ ((socketGroups (fst r) = socketGroups s /\ errorMessage (fst r) <> EmptyString
       /\ snd r = f)
      \/ (exists plate,
            In plate (plates s) /\ Plate.id plate = selectedPlate s
            /\ selectedPlate s <> EmptyString
            /\ geb (Plate.width plate) 40 = true /\ geb (Plate.height plate) 40 = true
            /\ ValidatedPosition.valid
                 (validateSocketPosition g (SocketGroup.positionX g) (SocketGroup.positionY g)
                    plate (socketGroups s)) = true
            /\ socketGroups (fst r) = committed s g
            /\ errorMessage (fst r) = EmptyString
            /\ selectedSocketGroup (fst r) = None)).
Proof.
  intros r g.
  destruct (handleConfirmSocketGroup_cases parseFloat toFixed1 numberToString render now s f)
    as [Hpl [Hrej | (plate & Hfind & Hlarge & Hvalid & Hcom & Herr & Hsel)]].
  - split; [exact Hpl | left; exact Hrej].
  - split; [exact Hpl|]. right. exists plate.
    apply find_some in Hfind as [Hin Hid]. apply String.eqb_eq in Hid.
    unfold isPlateLargeEnoughForSockets in Hlarge. apply andb_true_iff in Hlarge as [Hw Hh].
    repeat split; try assumption.
    intros Hempty. subst r.
    unfold handleConfirmSocketGroup in Hcom, Herr.
    assert (Hguard : String.eqb (selectedPlate s) EmptyString = true)
      by now apply String.eqb_eq.
    rewrite Hguard in Herr. simpl in Herr. discriminate Herr.
Qed.

(** A socket group committed by handleConfirmSocketGroup, with a numeric anchor
    and one to five sockets, lies at least 3 cm inside a plate of the
    collection that measures at least 40 x 40, and at least 4 cm away from
    every other group of that plate. *)
Theorem confirmed_group_is_placed_correctly (now : string) (s : State) (f : Form.t) :
  let r := handleConfirmSocketGroup parseFloat toFixed1 numberToString render now (s, f) in
  let g := confirmedGroup parseFloat now s f in
  socketGroups (fst r) <> socketGroups s ->
  isNumber (SocketGroup.positionX g) = true -> isNumber (SocketGroup.positionY g) = true ->
  In (Form.socketCount f) [1; 2; 3; 4; 5] ->
  In g (socketGroups (fst r))
  /\ exists plate,
       In plate (plates (fst r)) /\ Plate.id plate = SocketGroup.plateId g
       /\ geb (Plate.width plate) 40 = true /\ geb (Plate.height plate) 40 = true
       /\ geb (boxLeft (boxOf g)) 3 = true /\ geb (boxBottom (boxOf g)) 3 = true
       /\ (boxRight (boxOf g) <=? Plate.width plate - 3) = true
       /\ (boxTop (boxOf g) <=? Plate.height plate - 3) = true
       /\ forall other, In other (socketGroups s) -> sibling g other ->
            geb (rectDistance (boxOf g) (boxOf other)) 4 = true.
Proof.
  intros r g Hchanged Nx Ny Hcount.
  destruct (handleConfirmSocketGroup_cases parseFloat toFixed1 numberToString render now s f)
    as [Hpl [(Hsame & _) | (plate & Hfind & Hlarge & Hvalid & Hcom & _)]];
    [contradiction|].
  fold r in Hpl, Hcom. fold g in Hvalid, Hcom.
  apply find_some in Hfind as [Hin Hid]. apply String.eqb_eq in Hid.
  unfold isPlateLargeEnoughForSockets in Hlarge. apply andb_true_iff in Hlarge as [Hw Hh].
  split.
  - rewrite Hcom. unfold committed in *.
    destruct (selectedSocketGroup s) as [sel|]; [|apply in_or_app; right; now left].
    rewrite Hcom in Hchanged.
    assert (Hex : exists o, In o (socketGroups s)
                            /\ String.eqb (SocketGroup.id o) (SocketGroup.id sel) = true).
    { clear -Hchanged. induction (socketGroups s) as [|o rest IH]; [now contradiction Hchanged|].
      destruct (String.eqb (SocketGroup.id o) (SocketGroup.id sel)) eqn:E.
      - exists o. split; [now left | exact E].
      - destruct IH as (o' & Hin' & E').
        + intros Hmap. apply Hchanged. simpl. now rewrite E, Hmap.
        + exists o'. split; [now right | exact E']. }
    destruct Hex as (o & Hino & E).
    apply in_map_iff. exists o. now rewrite E.
  - exists plate. rewrite Hpl.
    destruct (leb_isNumber _ _ Hw) as [_ Nw]. destruct (leb_isNumber _ _ Hh) as [_ Nh].
    destruct (accepted_constraints g _ _ plate (socketGroups s) Nx Ny Nw Nh Hcount Hvalid)
      as (Cl & Cb & Cr & Ct & Cd).
    repeat split; try assumption.
Qed.

End ConfirmTheorems.

Lemma confirmed_group_is_placed_correctly_witness :
  let s := mkState [Plate.mk "1" 151.5 36.8; Plate.mk "2" 200 100] [] None "2" "" None
             {| width := 1000; height := 600 |} ∅ "" 0 false [] in
  let f := Form.mk 1 vertical "10" "10" true [] in
  let r := handleConfirmSocketGroup (fun _ => 10) (fun _ => "n") (fun _ => "n")
             (fun _ => "e") "g1" (s, f) in
  socketGroups (fst r) = [SocketGroup.mk "g1" "2" 1 vertical 10 10]
  /\ In (SocketGroup.mk "g1" "2" 1 vertical 10 10) (socketGroups (fst r)).
Proof.
  intros s f r. split; [reflexivity|].
  apply (confirmed_group_is_placed_correctly (fun _ => 10) (fun _ => "n") (fun _ => "n")
           (fun _ => "e") "g1" s f).
  - discriminate.
  - reflexivity.
  - reflexivity.
  - simpl. tauto.
Defined.

(** ** Zoom *)

Lemma memFloat_In (z : float) (l : list float) : memFloat z l = true <-> In z l.
Proof.
  unfold memFloat. rewrite existsb_exists. split.
  - intros (w & Hin & Heq). apply FloatAxioms.Leibniz.eqb_spec in Heq. now subst.
  - intros Hin. exists z. split; [exact Hin|]. now apply FloatAxioms.Leibniz.eqb_spec.
Qed.

Lemma zoomLevels_closed (z : float) (a : ZoomAction) :
  In z zoomLevels -> In (zoomStep z a) zoomLevels.
Proof.
  intros Hin.
  assert (H : forallb (fun z => memFloat (zoomStep z ZoomIn) zoomLevels
                                && memFloat (zoomStep z ZoomOut) zoomLevels
                                && memFloat (zoomStep z ZoomReset) zoomLevels)
                zoomLevels = true) by (vm_compute; reflexivity).
  rewrite forallb_forall in H. specialize (H z Hin).
  apply andb_true_iff in H as [H Hr]. apply andb_true_iff in H as [Hi Ho].
  apply memFloat_In. now destruct a.
Qed.

(** Starting from the initial zoom 1, no sequence of zoom-in, zoom-out and
    reset clicks takes the zoom outside 0.5 .. 5. *)
Theorem zoom_stays_in_range (clicks : list ZoomAction) :
  let canvasZoom := foldl zoomStep 1 clicks in
  (0.5 <=? canvasZoom) = true /\ (canvasZoom <=? 5) = true.
Proof.
  cbv zeta.
  assert (Hin : In (foldl zoomStep 1 clicks) zoomLevels).
  { assert (H1 : In 1 zoomLevels) by (apply memFloat_In; vm_compute; reflexivity).
    revert H1. generalize 1. induction clicks as [|a rest IH]; intros z Hz; simpl; [exact Hz|].
    apply IH. now apply zoomLevels_closed. }
  assert (H : forallb (fun z => (0.5 <=? z) && (z <=? 5)) zoomLevels = true)
    by (vm_compute; reflexivity).
  rewrite forallb_forall in H. specialize (H _ Hin).
  now apply andb_true_iff in H.
Qed.

(** Whatever the current zoom is, zooming in never goes past 5 and zooming out
    never goes below 0.5. *)
Theorem zoom_buttons_are_bounded (canvasZoom : float) :
  bounded_above 5 (handleZoomIn canvasZoom)
  /\ bounded_below 0.5 (handleZoomOut canvasZoom).
Proof.
  split.
  - apply (Math_min_from_last 5 [_]). reflexivity.
  - apply (Math_max_from_last 0.5 [_]). reflexivity.
Qed.

(** ** What the canvas shows *)

Lemma find_head_filter {A : Type} (pred : A -> bool) (l : list A) :
  List.find pred l = head (List.filter pred l).
Proof.
  induction l as [|a rest IH]; simpl; [reflexivity|]. now destruct (pred a).
Qed.

Lemma filter_id_unique (i : string) (ps : list Plate.t) :
  NoDup (map Plate.id ps) ->
  (length (List.filter (fun p => String.eqb (Plate.id p) i) ps) <= 1)%nat.
Proof.
  induction ps as [|p rest IH]; simpl; [lia|].
  intros Hnd. apply NoDup_cons in Hnd as [Hnotin Hnd].
  destruct (String.eqb (Plate.id p) i) eqn:E; [|now apply IH].
  apply String.eqb_eq in E. simpl.
  assert (Hnil : List.filter (fun p => String.eqb (Plate.id p) i) rest = []).
  { destruct (List.filter _ rest) as [|q qs] eqn:Ef; [reflexivity|].
    assert (Hq : In q (List.filter (fun p => String.eqb (Plate.id p) i) rest))
      by (rewrite Ef; now left).
    apply filter_In in Hq as [Hin Hid]. apply String.eqb_eq in Hid.
    exfalso. apply Hnotin. rewrite E, <- Hid. apply list_elem_of_In. now apply in_map. }
  rewrite Hnil. simpl. lia.
Qed.

(** The canvas shows plates of the collection only.  Outside the single-plate
    mode it shows them all; in that mode it shows the plates carrying the
    focused id, at most one when the ids are distinct, and the first of them is
    the plate the scale is fitted to: the cap of 2 applies exactly when the
    canvas shows a plate. *)
Theorem canvas_shows_the_scaled_plate (s : State) :
  (forall p, In p (Canvas.platesToShow s) -> In p (plates s))
  /\ (isSinglePlateMode s = false -> Canvas.platesToShow s = plates s)
  /\ (isSinglePlateMode s = true ->
      (forall p, In p (Canvas.platesToShow s) <->
                 In p (plates s) /\ Plate.id p = focusedPlateId s)
      /\ plateToScale s = head (Canvas.platesToShow s)
      /\ (NoDup (map Plate.id (plates s)) ->
          (length (Canvas.platesToShow s) <= 1)%nat))
  /\ fittedScale s =
     (let padding := if isMobile s then 20 else 80 in
      let maxCanvasWidth := width (canvasDimensions s) - padding * 2 in
      let maxCanvasHeight := height (canvasDimensions s) - padding * 2 in
      match (if isSinglePlateMode s then head (Canvas.platesToShow s) else None) with
      | Some plate =>
          Math_min [maxCanvasWidth / Plate.width plate;
                    maxCanvasHeight / Plate.height plate; 2]
      | None =>
          Math_min [maxCanvasWidth / totalRealWidth (plates s);
                    maxCanvasHeight / maxPlateHeight (plates s); 1]
      end).
Proof.
  unfold fittedScale, Canvas.platesToShow, plateToScale, focusedPlateId, find,
    isSinglePlateMode.
  destruct (selectedSocketGroup s) as [g|]; simpl.
  - split; [intros p Hin; apply filter_In in Hin; tauto|].
    split; [discriminate|]. split.
    + intros _. split; [|split].
      * intros p. rewrite filter_In, String.eqb_eq. reflexivity.
      * apply find_head_filter.
      * apply filter_id_unique.
    + rewrite find_head_filter. reflexivity.
  - destruct (String.eqb (selectedPlate s) EmptyString) eqn:E; simpl.
    + split; [tauto|]. split; [reflexivity|]. split; [discriminate | reflexivity].
    + split; [intros p Hin; apply filter_In in Hin; tauto|].
      split; [discriminate|]. split.
      * intros _. split; [|split].
        -- intros p. rewrite filter_In, String.eqb_eq. reflexivity.
        -- apply find_head_filter.
        -- apply filter_id_unique.
      * rewrite find_head_filter. reflexivity.
Qed.

(** ** The scale table *)

Lemma assignScales_other (scale : float) (ps : list Plate.t)
  (scales : gmap string float) (i : string) :
  ~ In i (map Plate.id ps) \/ i = "__proto__" ->
  foldl (fun scales plate => setProperty (Plate.id plate) scale scales) scales ps !! i
  = scales !! i.
Proof.
  revert scales. induction ps as [|p rest IH]; intros scales Hi; simpl; [reflexivity|].
  rewrite IH by (simpl in Hi; tauto).
  unfold setProperty.
  destruct (String.eqb (Plate.id p) "__proto__") eqn:E; [reflexivity|].
  apply String.eqb_neq in E. apply lookup_insert_ne.
  destruct Hi as [Hi | ->]; [simpl in Hi; tauto | exact E].
Qed.

(** The scaling effect does nothing while the canvas width is 0 or no plate
    exists.  Otherwise it rebuilds the scale table from scratch: the object
    holds the new scale as an own property for the id of every plate other than
    ["__proto__"], and no own property for any other key, so the entries of
    deleted plates do not survive and ["__proto__"] never gets one; plates and
    socket groups are left alone. *)
Theorem scale_table_is_rebuilt (s : State) :
  ((width (canvasDimensions s) =? 0) = true \/ plates s = [] -> scalingEffect s = s)
  /\ ((width (canvasDimensions s) =? 0) = false -> plates s <> [] ->
      (forall i, In i (map Plate.id (plates s)) -> i <> "__proto__" ->
                 plateScales (scalingEffect s) !! i = Some (finalScale s))
      /\ (forall i, ~ In i (map Plate.id (plates s)) \/ i = "__proto__" ->
                    plateScales (scalingEffect s) !! i = None)
      /\ plates (scalingEffect s) = plates s
      /\ socketGroups (scalingEffect s) = socketGroups s).
Proof.
  split.
  - intros [Hw | Hp]; unfold scalingEffect.
    + now rewrite Hw.
    + rewrite Hp. simpl. now rewrite orb_true_r.
  - intros Hw Hp.
    destruct (scalingEffect_result s Hw Hp) as [Epl Esc].
    split; [|split; [|split; [exact Epl|]]].
    + intros i Hin Hid. rewrite Esc.
      apply in_map_iff in Hin as (p & <- & Hin). now apply assignScales_lookup.
    + intros i Hout. rewrite Esc.
      unfold assignScales. rewrite assignScales_other by assumption. apply lookup_empty.
    + unfold scalingEffect. rewrite Hw.
      destruct (Nat.eqb (length (plates s)) 0); simpl; [reflexivity|].
      destruct (_ && _); [destruct (_ <? _)|]; reflexivity.
Qed.

(** ** The tallest plate *)

Lemma is_zero_leb (a b : float) : is_zero a = true -> is_zero b = true -> (a <=? b) = true.
Proof.
  unfold is_zero. intros Ha Hb. rewrite FloatAxioms.eqb_spec in Ha, Hb. rewrite FloatAxioms.leb_spec.
  change (Prim2SF zero) with (S754_zero false) in Ha, Hb. unfold SFeqb in Ha, Hb. unfold SFleb.
  destruct (Prim2SF a) as [sa|sa| |sa ma ea], (Prim2SF b) as [sb|sb| |sb mb eb];
    simpl in *; try discriminate; try reflexivity;
    try (destruct sa; discriminate); try (destruct sb; discriminate).
Qed.

Lemma Math_max_from_upper (args : list float) (highest : float) :
  isNumber highest = true -> Forall (fun a => isNumber a = true) args ->
  (highest <=? Math_max_from highest args) = true
  /\ forall a, In a args -> (a <=? Math_max_from highest args) = true.
Proof.
  intros Hh Hargs. revert highest Hh.
  induction Hargs as [|number rest Hn _ IH]; intros highest Hh; simpl.
  - split; [now apply leb_refl | tauto].
  - rewrite (proj1 (isNumber_is_nan _) Hn).
    assert (Hstep : forall h', isNumber h' = true -> (highest <=? h') = true ->
                               (number <=? h') = true ->
              (highest <=? Math_max_from h' rest) = true
              /\ forall a, number = a \/ In a rest -> (a <=? Math_max_from h' rest) = true).
    { intros h' Nh' Hle Hnle. destruct (IH h' Nh') as [H1 H2].
      split; [now apply (leb_trans _ h')|].
      intros a [<- | Hin]; [now apply (leb_trans _ h') | now apply H2]. }
    destruct (isPositiveZero number && isNegativeZero highest) eqn:Ez.
    + apply andb_true_iff in Ez as [Zn Zh].
      apply andb_true_iff in Zn as [Zn _]. apply andb_true_iff in Zh as [Zh _].
      apply Hstep; [exact Hn | now apply is_zero_leb | now apply leb_refl].
    + unfold gtb. destruct (highest <? number) eqn:E.
      * apply Hstep; [exact Hn | now apply ltb_leb | now apply leb_refl].
      * apply Hstep; [exact Hh | now apply leb_refl | now apply not_ltb_leb].
Qed.

(** [maxPlateHeight] is at least the height of every plate when the heights are
    numbers; a single NaN height makes it NaN; for no plate it is [-Infinity]. *)
Theorem maxPlateHeight_bounds (ps : list Plate.t) :
  (Forall (fun p => isNumber (Plate.height p) = true) ps ->
   isNumber (maxPlateHeight ps) = true
   /\ forall p, In p ps -> (Plate.height p <=? maxPlateHeight ps) = true)
  /\ (forall p, In p ps -> is_nan (Plate.height p) = true -> maxPlateHeight ps = nan)
  /\ maxPlateHeight [] = neg_infinity.
Proof.
  unfold maxPlateHeight, Math_max. split; [|split; [|reflexivity]].
  - intros Hnum.
    assert (Hargs : Forall (fun a => isNumber a = true) (map Plate.height ps)).
    { induction Hnum; simpl; constructor; assumption. }
    split; [now apply Math_max_from_isNumber|].
    intros p Hin.
    destruct (Math_max_from_upper _ neg_infinity eq_refl Hargs) as [_ H].
    apply H. now apply in_map.
  - intros p Hin Hnan.
    apply (Math_max_from_nan _ _ (Plate.height p)); [now apply in_map | exact Hnan].
Qed.

(** ** Detection of plate changes *)

Lemma unique_plate_id (l : list Plate.t) (p q : Plate.t) :
  NoDup (map Plate.id l) -> In p l -> In q l -> Plate.id q = Plate.id p -> q = p.
Proof.
  induction l as [|a rest IH]; simpl; [tauto|].
  intros Hnd Hp Hq Hid. apply NoDup_cons in Hnd as [Hnotin Hnd].
  destruct Hp as [-> | Hp], Hq as [-> | Hq]; auto.
  - exfalso. apply Hnotin. rewrite <- Hid. apply list_elem_of_In. now apply in_map.
  - exfalso. apply Hnotin. rewrite Hid. apply list_elem_of_In. now apply in_map.
Qed.

(** When no change is detected, the two collections have the same number of
    plates, every current plate has a saved plate of the same id and equal
    dimensions, and every saved plate is still present. *)
Theorem platesChanged_false (current saved : list Plate.t) :
  platesChanged current saved = false ->
  length current = length saved
  /\ (forall p, In p current ->
        exists q, In q saved /\ Plate.id q = Plate.id p
                  /\ (Plate.width q =? Plate.width p) = true
                  /\ (Plate.height q =? Plate.height p) = true)
  /\ (forall q, In q saved -> exists p, In p current /\ Plate.id p = Plate.id q).
Proof.
  unfold platesChanged. rewrite !orb_false_iff, negb_false_iff, Nat.eqb_eq.
  intros [[Hlen Hcur] Hsaved]. split; [exact Hlen|]. split.
  - intros p Hin.
    assert (H := proj2 (not_true_iff_false _) Hcur).
    destruct (find (fun q => String.eqb (Plate.id q) (Plate.id p)) saved) as [q|] eqn:Ef.
    + exists q. destruct (find_some _ _ Ef) as [Hinq Hid]. apply String.eqb_eq in Hid.
      destruct (strictNotEqual (Plate.width q) (Plate.width p)
                || strictNotEqual (Plate.height q) (Plate.height p)) eqn:Ed.
      * exfalso. apply H. apply existsb_exists. exists p. split; [exact Hin|].
        now rewrite Ef.
      * apply orb_false_iff in Ed as [Ew Eh]. unfold strictNotEqual in Ew, Eh.
        apply negb_false_iff in Ew, Eh. tauto.
    + exfalso. apply H. apply existsb_exists. exists p. split; [exact Hin|].
      now rewrite Ef.
  - intros q Hin.
    assert (H := proj2 (not_true_iff_false _) Hsaved).
    destruct (find (fun p => String.eqb (Plate.id p) (Plate.id q)) current) as [p|] eqn:Ef.
    + exists p. apply find_some in Ef as [Hinp Hid]. apply String.eqb_eq in Hid. tauto.
    + exfalso. apply H. apply existsb_exists. exists q. split; [exact Hin|].
      now rewrite Ef.
Qed.

Lemma platesChanged_false_witness :
  let current := [Plate.mk "1" 151.5 36.8; Plate.mk "2" 200 100] in
  let saved := [Plate.mk "2" 200 100; Plate.mk "1" 151.5 36.8] in
  platesChanged current saved = false /\ length current = length saved.
Proof.
  intros current saved. split; [reflexivity|].
  exact (proj1 (platesChanged_false current saved eq_refl)).
Defined.

(** A collection of plates with distinct ids and numeric dimensions is never
    reported as changed against itself. *)
Theorem platesChanged_same (ps : list Plate.t) :
  NoDup (map Plate.id ps) ->
  Forall (fun p => isNumber (Plate.width p) = true /\ isNumber (Plate.height p) = true) ps ->
  platesChanged ps ps = false.
Proof.
  intros Hnd Hnum. unfold platesChanged.
  rewrite Nat.eqb_refl. simpl.
  assert (Hfind : forall p, In p ps ->
            find (fun q => String.eqb (Plate.id q) (Plate.id p)) ps = Some p).
  { intros p Hin.
    destruct (find (fun q => String.eqb (Plate.id q) (Plate.id p)) ps) as [q|] eqn:Ef.
    - apply find_some in Ef as [Hinq Hid]. apply String.eqb_eq in Hid.
      now rewrite (unique_plate_id ps p q Hnd Hin Hinq Hid).
    - exfalso. apply (find_none _ _ Ef) in Hin. now rewrite String.eqb_refl in Hin. }
  apply orb_false_iff. split.
  - apply not_true_iff_false. intros H. apply existsb_exists in H as (p & Hin & Hp).
    rewrite (Hfind p Hin) in Hp.
    rewrite Forall_forall in Hnum. destruct (Hnum p (proj2 (list_elem_of_In _ _) Hin)) as [Nw Nh].
    unfold strictNotEqual in Hp. unfold isNumber, is_nan in Nw, Nh.
    apply negb_true_iff in Nw, Nh. rewrite Nw, Nh in Hp. discriminate.
  - apply not_true_iff_false. intros H. apply existsb_exists in H as (p & Hin & Hp).
    now rewrite (Hfind p Hin) in Hp.
Qed.

Lemma platesChanged_same_witness :
  platesChanged [Plate.mk "1" 151.5 36.8; Plate.mk "2" 200 100]
                [Plate.mk "1" 151.5 36.8; Plate.mk "2" 200 100] = false
  /\ platesChanged [Plate.mk "1" nan 36.8] [Plate.mk "1" nan 36.8] = true.
Proof.
  split; [|reflexivity].
  apply platesChanged_same.
  - change (NoDup ["1"; "2"]). apply NoDup_cons. split; [|apply NoDup_singleton].
    intros H. apply list_elem_of_In in H. destruct H as [H | []]. discriminate H.
  - repeat constructor.
Defined.

(** ** Deleting a socket group *)

(** handleDeleteSocketGroup removes the groups of the given id and only those;
    the selection is cleared exactly when it is the deleted group; plates are
    untouched. *)
Theorem deleted_group_is_gone (groupId : string) (s : State) :
  let s' := handleDeleteSocketGroup groupId s in
  (forall g, In g (socketGroups s') <-> In g (socketGroups s) /\ SocketGroup.id g <> groupId)
  /\ plates s' = plates s
  /\ (forall g, selectedSocketGroup s' = Some g <->
                selectedSocketGroup s = Some g /\ SocketGroup.id g <> groupId).
Proof.
  cbv zeta. unfold handleDeleteSocketGroup.
  assert (Hf : forall g, In g (List.filter
                                 (fun sg => negb (String.eqb (SocketGroup.id sg) groupId))
                                 (socketGroups s))
                         <-> In g (socketGroups s) /\ SocketGroup.id g <> groupId)
    by (intros g; now rewrite filter_In, negb_true_iff, String.eqb_neq).
  destruct (selectedSocketGroup s) as [sel|] eqn:Es.
  - destruct (String.eqb (SocketGroup.id sel) groupId) eqn:E; simpl.
    + split; [exact Hf|]. split; [reflexivity|].
      apply String.eqb_eq in E. intros g. split; [discriminate|].
      intros [[= ->] Hne]. contradiction.
    + split; [exact Hf|]. split; [reflexivity|].
      apply String.eqb_neq in E. intros g. rewrite Es. split.
      * intros [= ->]. tauto.
      * tauto.
  - simpl. split; [exact Hf|]. split; [reflexivity|].
    intros g. rewrite Es. split; [discriminate | tauto].
Qed.

(** ** The toggle switch *)

(** Without a [pressed] prop the switch keeps its own state: every click flips
    it, so [n] clicks leave it flipped exactly when [n] is odd.  With a
    [pressed] prop the switch shows the prop whatever is clicked and never
    touches its own state.  In both cases every click reports the negation of
    what was shown, when a callback is given, and reports nothing otherwise. *)
Theorem toggle_clicks (props : Toggle.Props) (n : nat) (st : Toggle.t) :
  let st' := Toggle.clicks props n st in
  (Toggle.pressed props = None ->
   Toggle.isPressed props st' = xorb (Toggle.isPressed props st) (Nat.odd n))
  /\ (forall p, Toggle.pressed props = Some p ->
        Toggle.isPressed props st' = p
        /\ Toggle.internalPressed st' = Toggle.internalPressed st)
  /\ (Toggle.onPressedChange props = true ->
      Toggle.calls (Toggle.handleClick props st')
      = negb (Toggle.isPressed props st') :: Toggle.calls st'
      /\ length (Toggle.calls st') = (n + length (Toggle.calls st))%nat)
  /\ (Toggle.onPressedChange props = false -> Toggle.calls st' = Toggle.calls st).
Proof.
  cbv zeta. unfold Toggle.clicks.
  induction n as [|n IH].
  - simpl. repeat split.
    + intros _. now rewrite xorb_false_r.
    + unfold Toggle.isPressed. now rewrite H.
    + unfold Toggle.handleClick. rewrite H. now destruct (Toggle.pressed props).
  - destruct IH as (IHu & IHc & IHr & IHn).
    rewrite Nat.odd_succ, <- Nat.negb_odd.
    change (Nat.iter (S n) (Toggle.handleClick props) st)
      with (Toggle.handleClick props (Nat.iter n (Toggle.handleClick props) st)).
    set (st' := Nat.iter n (Toggle.handleClick props) st) in *.
    repeat split.
    + intros Hp. specialize (IHu Hp). revert IHu.
      unfold Toggle.handleClick, Toggle.isPressed. rewrite Hp.
      intros IHu.
      destruct (Toggle.onPressedChange props); cbn [Toggle.internalPressed];
        rewrite IHu; now destruct (Toggle.internalPressed st), (Nat.odd n).
    + unfold Toggle.isPressed. now rewrite H.
    + destruct (IHc p H) as [_ Hi].
      unfold Toggle.handleClick. rewrite H.
      now destruct (Toggle.onPressedChange props).
    + unfold Toggle.handleClick at 1. rewrite H.
      now destruct (Toggle.pressed props).
    + destruct (IHr H) as [_ Hl].
      unfold Toggle.handleClick. rewrite H.
      destruct (Toggle.pressed props); simpl; now rewrite Hl.
    + intros Hc. rewrite <- (IHn Hc).
      unfold Toggle.handleClick. rewrite Hc.
      now destruct (Toggle.pressed props).
Qed.
